(** * The MSRD package-based submission client (Python/msrd.py)

    A shallow embedding of the job-assembly pipeline of [msrd.py]:
    [upload_file_and_generate_file_info], [update_file_info_in_job],
    [add_file_info_to_job], [submit] and [print_response], together with the
    parts of the Python run time they rely on ([str.strip], [pathlib]'s
    [name], dictionaries and lists as shared mutable objects, exceptions and
    [exit]).

    Python objects live in a store ([gmap loc object]); a job document is a
    value pointing into it, so that "mutated in place" and "the same object"
    can be stated.  Everything the program does to the outside (printing,
    HTTP requests, file writes) and every [list.append] is recorded, in
    order, in a trace.  What the outside answers (file sizes, file contents,
    HTTP responses, the JSON codec) is a [world]. *)

From Stdlib Require Import ZArith String Ascii List DecimalString.
From Stdlib Require DecimalZ DecimalPos.
From stdpp Require Import gmap strings list fin_maps.

Set Warnings "-register-all".

Open Scope string_scope.
Open Scope Z_scope.
Open Scope list_scope.

#[local] Arguments String.append : simpl nomatch.

(** ** Strings *)

Module Str.

(** The double-quote character (code point 34), and the one-character
    string made of it. *)
Definition dquote : ascii := ascii_of_nat 34.
Definition dq : string := String dquote EmptyString.

Fixpoint mem_char (a : ascii) (chars : string) : bool :=
  match chars with
  | EmptyString => false
  | String c chars' => Ascii.eqb a c || mem_char a chars'
  end.

(** [s.lstrip(chars)]: drop the longest prefix made of characters of [chars]. *)
Fixpoint lstrip (chars : string) (s : string) : string :=
  match s with
  | EmptyString => EmptyString
  | String a s' => if mem_char a chars then lstrip chars s' else s
  end.

(** [s.rstrip(chars)]: drop the longest suffix made of characters of [chars]. *)
Fixpoint rstrip (chars : string) (s : string) : string :=
  match s with
  | EmptyString => EmptyString
  | String a s' =>
      match rstrip chars s' with
      | EmptyString => if mem_char a chars then EmptyString else String a EmptyString
      | r => String a r
      end
  end.

(** [s.strip(chars)]: CPython scans from the left, then from the right down
    to the left index; that is [lstrip] followed by [rstrip]. *)
Definition strip (chars : string) (s : string) : string :=
  rstrip chars (lstrip chars s).

(** [s.split(sep)] for a one-character separator. *)
Fixpoint split (sep : ascii) (s : string) : list string :=
  match s with
  | EmptyString => [EmptyString]
  | String a s' =>
      if Ascii.eqb a sep then EmptyString :: split sep s'
      else match split sep s' with
           | x :: xs => String a x :: xs
           | [] => [String a EmptyString]
           end
  end.

(** [str(n)] / ['{}'.format(n)] for an integer. *)
Definition of_Z (n : Z) : string := NilZero.string_of_int (Z.to_int n).

(** All characters of [s] are in [chars]. *)
Fixpoint all_in (chars : string) (s : string) : bool :=
  match s with
  | EmptyString => true
  | String a s' => mem_char a chars && all_in chars s'
  end.

(** [s] begins (ends) with a character of [chars]. *)
Definition starts_in (chars : string) (s : string) : bool :=
  match s with
  | String a _ => mem_char a chars
  | EmptyString => false
  end.

Fixpoint ends_in (chars : string) (s : string) : bool :=
  match s with
  | EmptyString => false
  | String a EmptyString => mem_char a chars
  | String _ s' => ends_in chars s'
  end.

End Str.

(** ** pathlib *)

(** [Path(file).name] on a POSIX system: the path is cut at ['/'], empty and
    ['.'] components are dropped, and the name is the last remaining
    component, or the empty string when there is none. *)
Definition path_parts (file : string) : list string :=
  filter (fun x => x ≠ EmptyString ∧ x ≠ ".") (Str.split "/" file).

Definition path_name (file : string) : string :=
  List.last (path_parts file) EmptyString.

(** ** JSON documents and Python objects *)

(** A JSON number as Python has it: an [int], or a [float] given by its
    [repr] (['1.5'], ['1e+22'], and ['nan'], ['inf'], ['-inf'] for the values
    that are no numbers, which [json.loads] accepts as [NaN], [Infinity],
    [-Infinity] and makes of literals such as [1e999]). *)
Inductive number :=
| NInt (z : Z)
| NFloat (repr : string).

Definition finite_number (n : number) : bool :=
  match n with
  | NInt _ => true
  | NFloat repr =>
      negb (String.eqb repr "nan" || String.eqb repr "inf" || String.eqb repr "-inf")
  end.

(** A JSON text, as a tree. *)
Inductive json :=
| JNull
| JBool (b : bool)
| JNum (n : number)
| JStr (s : string)
| JArr (items : list json)
| JObj (members : list (string * json)).

(** Every number of the text is finite: what [json.dumps(obj,
    allow_nan=False)] asks for. *)
Fixpoint finite_json (j : json) : bool :=
  match j with
  | JNum n => finite_number n
  | JArr items => forallb finite_json items
  | JObj members => forallb (fun kv => finite_json (snd kv)) members
  | _ => true
  end.

Definition loc := positive.

(** A Python value: an immutable scalar, or a reference to a mutable object. *)
Inductive value :=
| VNone
| VBool (b : bool)
| VNum (n : number)
| VStr (s : string)
| VRef (l : loc).

(** The mutable objects: [dict] (insertion ordered, [str] keys) and [list]. *)
Inductive object :=
| ODict (entries : list (string * value))
| OList (items : list value).

Abbreviation heap := (gmap loc object).

Fixpoint dict_get {A} (key : string) (entries : list (string * A)) : option A :=
  match entries with
  | [] => None
  | (k, v) :: rest => if String.eqb k key then Some v else dict_get key rest
  end.

(** [d[key] = v]: replace the value where the key stands, or add it last. *)
Fixpoint dict_set {A} (key : string) (v : A) (entries : list (string * A)) : list (string * A) :=
  match entries with
  | [] => [(key, v)]
  | (k, v0) :: rest =>
      if String.eqb k key then (k, v) :: rest else (k, v0) :: dict_set key v rest
  end.

(** ** The outside world and the trace of effects *)

Record response := {
  status_code : Z;
  reason : string;
  url : string;
  text : string
}.

Record file_data := {
  st_size : Z;
  contents : string
}.

Record world := {
  urljoin : string -> string -> string;
  (** the local file system; [None]: no such file *)
  files : string -> option file_data;
  (** [session.put(url, data=<file at path>)]; [None]: the request raises *)
  http_put : string -> string -> option response;
  (** [session.post(url, json=...)] with the body that is sent, if any;
      [None]: the request raises *)
  http_post : string -> option json -> option response;
  (** [json.loads]; [None]: [JSONDecodeError] *)
  json_loads : string -> option json;
  (** [json.dumps(obj, indent=2)] *)
  json_dumps : json -> string
}.

Inductive event :=
| EvPrint (line : string)
| EvPut (url : string) (path : string)
| EvPost (url : string) (body : option json)
| EvAppend (l : loc) (v : value)
| EvWrite (path : string) (data : string).

Inductive exn :=
| KeyError
| TypeError
| AttributeError
| ValueError
| JSONDecodeError
| FileNotFoundError
| UnsupportedOperation
| ConnectionError
| InvalidJSONError.

Definition exn_eqb (a b : exn) : bool :=
  match a, b with
  | KeyError, KeyError | TypeError, TypeError | AttributeError, AttributeError
  | ValueError, ValueError | JSONDecodeError, JSONDecodeError
  | FileNotFoundError, FileNotFoundError
  | UnsupportedOperation, UnsupportedOperation
  | ConnectionError, ConnectionError
  | InvalidJSONError, InvalidJSONError => true
  | _, _ => false
  end.

Record state := {
  st_heap : heap;
  st_trace : list event
}.

(** How a computation ends: with a value, by [exit(code)], or by an
    exception that nobody has caught yet. *)
Inductive outcome (A : Type) :=
| Ret (a : A)
| Exit (code : Z)
| Raise (e : exn).
Arguments Ret {A} a.
Arguments Exit {A} code.
Arguments Raise {A} e.

Definition M (A : Type) : Type := state -> outcome A * state.

Definition ret {A} (a : A) : M A := fun st => (Ret a, st).

Definition bind {A B} (m : M A) (k : A -> M B) : M B :=
  fun st =>
    match m st with
    | (Ret a, st') => k a st'
    | (Exit c, st') => (Exit c, st')
    | (Raise e, st') => (Raise e, st')
    end.

Notation "'do' x <- m ; k" := (bind m (fun x => k))
  (at level 10, x name, m at level 100, k at level 200).
Notation "'do_' m ; k" := (bind m (fun _ => k))
  (at level 10, m at level 100, k at level 200).

Definition raise {A} (e : exn) : M A := fun st => (Raise e, st).

(** [exit(code)]: [SystemExit] is caught by no handler of this program. *)
Definition py_exit {A} (code : Z) : M A := fun st => (Exit code, st).

(** [try: body  except (classes): handler].  None of the exceptions of this
    model is a subclass of a class named in a handler of the program other
    than itself. *)
Definition try_except {A} (body : M A) (classes : list exn) (handler : M A) : M A :=
  fun st =>
    match body st with
    | (Raise e, st') =>
        if existsb (exn_eqb e) classes then handler st' else (Raise e, st')
    | r => r
    end.

Definition emit (e : event) : M unit :=
  fun st => (Ret tt, {| st_heap := st_heap st; st_trace := st_trace st ++ [e] |}).

Definition print (line : string) : M unit := emit (EvPrint line).

(** A new object, at an address that is not in use. *)
Definition alloc (o : object) : M value :=
  fun st =>
    let l := fresh (dom (st_heap st)) in
    (Ret (VRef l), {| st_heap := <[l := o]> (st_heap st); st_trace := st_trace st |}).

(** [v[key]] for a [str] key: a [dict] answers or raises [KeyError]; a list,
    a string, a number, a boolean and [None] raise [TypeError].  (A reference
    to nothing does not occur in Python; it is treated like [None].) *)
Definition getitem (v : value) (key : string) : M value :=
  fun st =>
    match v with
    | VRef l =>
        match st_heap st !! l with
        | Some (ODict entries) =>
            match dict_get key entries with
            | Some x => (Ret x, st)
            | None => (Raise KeyError, st)
            end
        | _ => (Raise TypeError, st)
        end
    | _ => (Raise TypeError, st)
    end.

(** [v.append(x)]: only a list has the method; everything else raises
    [AttributeError].  The list object is changed in place. *)
Definition list_append (v : value) (x : value) : M unit :=
  fun st =>
    match v with
    | VRef l =>
        match st_heap st !! l with
        | Some (OList items) =>
            (Ret tt, {| st_heap := <[l := OList (items ++ [x])]> (st_heap st);
                        st_trace := st_trace st ++ [EvAppend l x] |})
        | _ => (Raise AttributeError, st)
        end
    | _ => (Raise AttributeError, st)
    end.

(** ** The program *)

Section Program.

Variable w : world.

(** *** class Client *)

Record Client := {
  msrd_url : string;
  account_id : string;
  api_token : string
}.

(** [Client._url(fmt, account_id)] for a format with one [{}]: the text
    before and after the placeholder is given apart. *)
Definition _url (client : Client) (before after : string) : string :=
  urljoin w (msrd_url client) (before +:+ account_id client +:+ after).

(** The session's response hook: prints status, reason and URL. *)
Definition hook_line (r : response) : string :=
  Str.of_Z (status_code r) +:+ " " +:+ reason r +:+ " " +:+ url r.

Definition response_hook (r : response) : M unit :=
  print (hook_line r).

Inductive mode := ModeR | ModeW.

Record handle := {
  h_path : string;
  h_mode : mode
}.

(** [open(path, mode)]: opening for reading needs the file to exist. *)
Definition py_open (path : string) (m : mode) : M handle :=
  match m with
  | ModeR =>
      match files w path with
      | Some _ => ret {| h_path := path; h_mode := ModeR |}
      | None => raise FileNotFoundError
      end
  | ModeW => ret {| h_path := path; h_mode := ModeW |}
  end.

(** [fp.write(data)]: a file opened for reading is not writable. *)
Definition file_write (fp : handle) (data : string) : M unit :=
  match h_mode fp with
  | ModeR => raise UnsupportedOperation
  | ModeW => emit (EvWrite (h_path fp) data)
  end.

(** The address of the Files API: ['files/accounts/{}/session']. *)
Definition upload_url (client : Client) : string :=
  _url client "files/accounts/" "/session".

(** [Client.upload_file(file_path)] *)
Definition upload_file (client : Client) (file_path : string) : M response :=
  let url := upload_url client in
  do file_to_upload <- py_open file_path ModeR;
  do_ emit (EvPut url (h_path file_to_upload));
  match http_put w url (h_path file_to_upload) with
  | Some r => do_ response_hook r; ret r
  | None => raise ConnectionError
  end.

(** *** print_response *)

(** [response.json()] *)
Definition response_json (r : response) : M json :=
  match json_loads w (text r) with
  | Some j => ret j
  | None => raise JSONDecodeError
  end.

Definition print_response (r : response) : M unit :=
  try_except
    (do j <- response_json r; print (json_dumps w j))
    [JSONDecodeError]
    (print (text r)).

(** *** upload_file_and_generate_file_info *)

Definition MAX_FILE_SIZE : Z := 4194304.

(** [Path(file).stat().st_size] *)
Definition path_stat_size (file : string) : M Z :=
  match files w file with
  | Some f => ret (st_size f)
  | None => raise FileNotFoundError
  end.

Definition size_error_message (file : string) (size : Z) : string :=
  "ERROR: file " +:+ Str.dq +:+ file +:+ Str.dq +:+ " has byte size "
  +:+ Str.of_Z size +:+ ", which exceeds limit of 4mb".

Definition file_info_entries (name url : string) : list (string * value) :=
  [("action", VStr "DownloadOnly"); ("name", VStr name); ("url", VStr url)].

Definition upload_file_and_generate_file_info (client : Client) (file : string) : M value :=
  do size <- path_stat_size file;
  do_ (if size >? MAX_FILE_SIZE
       then do_ print (size_error_message file size); py_exit 1
       else ret tt);
  let name := path_name file in
  do r <- upload_file client file;
  let url := Str.strip Str.dq (text r) in
  alloc (ODict (file_info_entries name url)).

(** *** update_file_info_in_job *)

Definition missing_structure_message : string :=
  "Job file input is missing required setup.package.fileInformations data.".

Fixpoint update_file_info_in_job (job : value) (file_infos : list value) : M value :=
  match file_infos with
  | [] => ret job
  | file_info :: rest =>
      do_ try_except
            (do setup <- getitem job "setup";
             do package <- getitem setup "package";
             do infos <- getitem package "fileInformations";
             list_append infos file_info)
            [KeyError; TypeError; AttributeError]
            (do_ print missing_structure_message; py_exit 1);
      update_file_info_in_job job rest
  end.

(** *** add_file_info_to_job *)

(** The [for file in files] loop; [file_info] is the local list built so far. *)
Fixpoint upload_files (client : Client) (files : list string) (file_info : list value)
  : M (list value) :=
  match files with
  | [] => ret file_info
  | file :: rest =>
      do info <- upload_file_and_generate_file_info client file;
      upload_files client rest (file_info ++ [info])
  end.

Definition add_file_info_to_job (client : Client) (job : value) (files : list string) : M value :=
  do file_info <- upload_files client files [];
  match file_info with
  | [] => ret job
  | _ :: _ => update_file_info_in_job job file_info
  end.

(** *** json.load, json.dump *)

(** [dict(pairs)]: keys in order of first occurrence, the last value wins. *)
Definition dict_of_pairs (pairs : list (string * value)) : list (string * value) :=
  fold_left (fun d kv => dict_set (fst kv) (snd kv) d) pairs [].

(** The objects that the decoder builds for a parsed text: every array and
    every object of the text becomes a new list or dict of its own. *)
Fixpoint build (j : json) (h : heap) : value * heap :=
  match j with
  | JNull => (VNone, h)
  | JBool b => (VBool b, h)
  | JNum n => (VNum n, h)
  | JStr s => (VStr s, h)
  | JArr items =>
      let '(vs, h1) :=
        (fix go (items : list json) (h : heap) : list value * heap :=
           match items with
           | [] => ([], h)
           | j :: rest =>
               let '(v, h1) := build j h in
               let '(vs, h2) := go rest h1 in
               (v :: vs, h2)
           end) items h in
      let l := fresh (dom h1) in
      (VRef l, <[l := OList vs]> h1)
  | JObj members =>
      let '(es, h1) :=
        (fix go (members : list (string * json)) (h : heap)
           : list (string * value) * heap :=
           match members with
           | [] => ([], h)
           | (k, j) :: rest =>
               let '(v, h1) := build j h in
               let '(es, h2) := go rest h1 in
               ((k, v) :: es, h2)
           end) members h in
      let l := fresh (dom h1) in
      (VRef l, <[l := ODict (dict_of_pairs es)]> h1)
  end.

(** [json.load(fp)] *)
Definition json_load (fp : handle) : M value :=
  match files w (h_path fp) with
  | None => raise FileNotFoundError
  | Some f =>
      match json_loads w (contents f) with
      | None => raise JSONDecodeError
      | Some j =>
          fun st =>
            let '(v, h) := build j (st_heap st) in
            (Ret v, {| st_heap := h; st_trace := st_trace st |})
      end
  end.

(** The tree that a value stands for, followed through at most [fuel]
    references. *)
Fixpoint reify (fuel : nat) (h : heap) (v : value) : option json :=
  match v with
  | VNone => Some JNull
  | VBool b => Some (JBool b)
  | VNum n => Some (JNum n)
  | VStr s => Some (JStr s)
  | VRef l =>
      match fuel with
      | O => None
      | S fuel' =>
          match h !! l with
          | Some (OList items) => JArr <$> mapM (reify fuel' h) items
          | Some (ODict entries) =>
              JObj <$> mapM (fun kv => pair (fst kv) <$> reify fuel' h (snd kv)) entries
          | None => None
          end
      end
  end.

(** What the encoder sees of a value: a path through a document without
    cycles passes through each object at most once, so [size h] references
    are enough; [None] is a circular document. *)
Definition snapshot (h : heap) (v : value) : option json :=
  reify (size h) h v.

(** [json.dump(obj, fp, indent=2)].  (The encoder writes the text piece by
    piece; here it is written at once.) *)
Definition json_dump (obj : value) (fp : handle) : M unit :=
  fun st =>
    match snapshot (st_heap st) obj with
    | Some j => file_write fp (json_dumps w j) st
    | None => (Raise ValueError, st)
    end.

(** The request of [session.post], once its body is prepared. *)
Definition session_post (url : string) (body : option json) : M response :=
  do_ emit (EvPost url body);
  match http_post w url body with
  | Some r => do_ response_hook r; ret r
  | None => raise ConnectionError
  end.

(** [Client.submit_job(job)]: [session.post(url, json=job)].  The session
    (requests 2.26 and later) prepares the body before it sends anything:
    for [json=None] there is no body; otherwise the body is
    [json.dumps(job, allow_nan=False)], and a document that the encoder
    refuses (a number that is not finite, a circular document) makes the
    call raise [InvalidJSONError] with no request made. *)
Definition submit_job (client : Client) (job : value) : M response :=
  let url := _url client "api/accounts/" "/jobs" in
  fun st =>
    match job with
    | VNone => session_post url None st
    | _ =>
        match snapshot (st_heap st) job with
        | Some body =>
            if finite_json body then session_post url (Some body) st
            else (Raise InvalidJSONError, st)
        | None => (Raise InvalidJSONError, st)
        end
    end.

(** *** submit *)

(** Truth value of the [--out_job_file] option: [None] and the empty string
    are false. *)
Definition truthy (o : option string) : option string :=
  match o with
  | Some EmptyString => None
  | other => other
  end.

Definition submit (client : Client) (job_path : string) (output_job_path : option string)
    (files : list string) : M unit :=
  do input_job_file <- py_open job_path ModeR;
  do job <- json_load input_job_file;
  do job <- add_file_info_to_job client job files;
  do_ match truthy output_job_path with
      | Some path =>
          do out_file <- py_open path ModeR;
          json_dump job out_file
      | None => ret tt
      end;
  do r <- submit_job client job;
  print_response r.

End Program.

(** ** Reading a document *)

(** [v[key]] as a pure reading of the store: the value under [key] when [v]
    is a dictionary that has the key. *)
Definition field (h : heap) (v : value) (key : string) : option value :=
  match v with
  | VRef l =>
      match h !! l with
      | Some (ODict entries) => dict_get key entries
      | _ => None
      end
  | _ => None
  end.

Definition as_list (h : heap) (v : value) : option (loc * list value) :=
  match v with
  | VRef l =>
      match h !! l with
      | Some (OList items) => Some (l, items)
      | _ => None
      end
  | _ => None
  end.

(** The sequence at [setup.package.fileInformations] of a job document: the
    list object and its items, when every key on the way is there and the
    end of the path is a list. *)
Definition file_informations (h : heap) (job : value) : option (loc * list value) :=
  match field h job "setup" with
  | Some setup =>
      match field h setup "package" with
      | Some package =>
          match field h package "fileInformations" with
          | Some infos => as_list h infos
          | None => None
          end
      | None => None
      end
  | None => None
  end.

(** [v] is a FileInformation for [file] whose upload was answered by [r]: a
    dictionary with the three entries [action], [name], [url]. *)
Definition info_for (w : world) (client : Client) (h : heap) (file : string) (v : value) : Prop :=
  ∃ l f r,
    v = VRef l ∧
    files w file = Some f ∧
    http_put w (upload_url w client) file = Some r ∧
    h !! l = Some (ODict [("action", VStr "DownloadOnly");
                          ("name", VStr (path_name file));
                          ("url", VStr (Str.strip Str.dq (text r)))]).

(** The upload of [file] goes through: the file is there, within the size
    limit, and the request is answered. *)
Definition upload_ok (w : world) (client : Client) (file : string) : bool :=
  match files w file with
  | Some f =>
      negb (st_size f >? MAX_FILE_SIZE)
      && bool_decide (is_Some (http_put w (upload_url w client) file))
  | None => false
  end.

Definition is_put (e : event) : bool :=
  match e with EvPut _ _ => true | _ => false end.

Definition is_append (e : event) : bool :=
  match e with EvAppend _ _ => true | _ => false end.

Definition is_post (e : event) : bool :=
  match e with EvPost _ _ => true | _ => false end.

Definition is_write (e : event) : bool :=
  match e with EvWrite _ _ => true | _ => false end.

(** The lines printed so far. *)
Definition printed (st : state) : list string :=
  omap (fun e => match e with EvPrint s => Some s | _ => None end) (st_trace st).

(** The files put to the service so far, in order. *)
Definition uploads (st : state) : list string :=
  omap (fun e => match e with EvPut _ p => Some p | _ => None end) (st_trace st).

(** The reading of "exactly one leading and one trailing double-quote
    character removed": [u] is [t] without its first and its last character,
    which are both double quotes. *)
Definition one_quote_removed_each_end (t u : string) : Prop :=
  t = Str.dq +:+ u +:+ Str.dq.

(** The state with more events in its trace. *)
Definition log (st : state) (evs : list event) : state :=
  {| st_heap := st_heap st; st_trace := st_trace st ++ evs |}.

(** [h'] is [h] with new objects only, each of them a FileInformation
    dictionary: what the upload phase does to the store. *)
Definition grown (h h' : heap) : Prop :=
  h ⊆ h' ∧
  ∀ l, h !! l = None →
       h' !! l = None ∨ ∃ name url, h' !! l = Some (ODict (file_info_entries name url)).

(** An event of the upload phase: a line printed, or a file within the
    size limit put to the Files API. *)
Definition upload_event (w : world) (client : Client) (e : event) : Prop :=
  match e with
  | EvPrint _ => True
  | EvPut u p => u = upload_url w client ∧ ∃ f, files w p = Some f ∧ st_size f <= MAX_FILE_SIZE
  | _ => False
  end.

(** An event of the merge phase: an append, or a line printed. *)
Definition merge_event (e : event) : Prop :=
  match e with
  | EvPrint _ | EvAppend _ _ => True
  | _ => False
  end.

(** ** The read-only queries and the commands *)

Section Queries.

Variable w : world.

(** [session.get(url)]; [None]: the request raises.  A GET changes nothing
    outside, so the trace keeps no event for it; the line of the response
    hook is printed as for every response. *)
Variable http_get : string -> option response.

Definition session_get (url : string) : M response :=
  match http_get url with
  | Some r => do_ response_hook r; ret r
  | None => raise ConnectionError
  end.

(** [Client.account_info()]: ['api/accounts/{}'] *)
Definition account_info (client : Client) : M response :=
  session_get (_url w client "api/accounts/" EmptyString).

(** [Client.os_images()]: ['api/accounts/{}/osimages'] *)
Definition os_images (client : Client) : M response :=
  session_get (_url w client "api/accounts/" "/osimages").

(** [Client.job_tiers()]: ['api/accounts/{}/jobtiers'] *)
Definition job_tiers (client : Client) : M response :=
  session_get (_url w client "api/accounts/" "/jobtiers").

(** [Client.jobs()]: ['api/accounts/{}/jobs'] *)
Definition jobs (client : Client) : M response :=
  session_get (_url w client "api/accounts/" "/jobs").

End Queries.

(** The commands of the command line, each [print_response] of a call of
    the client ([submit] stands above). *)
Module Cli.

Section Commands.

Variable w : world.
Variable http_get : string -> option response.

Definition account_info (client : Client) : M unit :=
  do r <- account_info w http_get client; print_response w r.

Definition os_images (client : Client) : M unit :=
  do r <- os_images w http_get client; print_response w r.

Definition job_tiers (client : Client) : M unit :=
  do r <- job_tiers w http_get client; print_response w r.

Definition jobs (client : Client) : M unit :=
  do r <- jobs w http_get client; print_response w r.

Definition upload_file (client : Client) (file_path : string) : M unit :=
  do r <- upload_file w client file_path; print_response w r.

End Commands.

End Cli.

(** What [print_response] prints for a response. *)
Definition response_body (w : world) (r : response) : string :=
  match json_loads w (text r) with
  | Some j => json_dumps w j
  | None => text r
  end.

(** ** Documents as trees *)

(** The two loops of [build], by name. *)
Fixpoint build_items (items : list json) (h : heap) : list value * heap :=
  match items with
  | [] => ([], h)
  | j :: rest =>
      let '(v, h1) := build j h in
      let '(vs, h2) := build_items rest h1 in
      (v :: vs, h2)
  end.

Fixpoint build_members (members : list (string * json)) (h : heap)
  : list (string * value) * heap :=
  match members with
  | [] => ([], h)
  | (k, j) :: rest =>
      let '(v, h1) := build j h in
      let '(es, h2) := build_members rest h1 in
      ((k, v) :: es, h2)
  end.

(** No object of the text has the same key twice. *)
Fixpoint unique_keys (j : json) : bool :=
  match j with
  | JArr items => forallb unique_keys items
  | JObj members =>
      bool_decide (NoDup (map fst members))
      && forallb (fun kv => unique_keys (snd kv)) members
  | _ => true
  end.

(** The number of arrays and objects of a text. *)
Fixpoint containers (j : json) : nat :=
  match j with
  | JArr items => S (fold_right (fun j n => (containers j + n)%nat) O items)
  | JObj members => S (fold_right (fun kv n => (containers (snd kv) + n)%nat) O members)
  | _ => O
  end.

(** Induction on texts, with the hypothesis for every item and every member. *)
Section JsonInduction.

Variable P : json -> Prop.
Hypothesis Hnull : P JNull.
Hypothesis Hbool : ∀ b, P (JBool b).
Hypothesis Hnum : ∀ n, P (JNum n).
Hypothesis Hstr : ∀ s, P (JStr s).
Hypothesis Harr : ∀ items, Forall P items → P (JArr items).
Hypothesis Hobj : ∀ members, Forall (fun kv => P (snd kv)) members → P (JObj members).

Fixpoint json_induction (j : json) : P j :=
  match j with
  | JNull => Hnull
  | JBool b => Hbool b
  | JNum n => Hnum n
  | JStr s => Hstr s
  | JArr items =>
      Harr items
        ((fix go (items : list json) : Forall P items :=
            match items with
            | [] => List.Forall_nil P
            | x :: rest => List.Forall_cons P x rest (json_induction x) (go rest)
            end) items)
  | JObj members =>
      Hobj members
        ((fix go (members : list (string * json))
            : Forall (fun kv => P (snd kv)) members :=
            match members with
            | [] => List.Forall_nil _
            | kv :: rest =>
                List.Forall_cons (fun kv => P (snd kv)) kv rest
                  (json_induction (snd kv)) (go rest)
            end) members)
  end.

End JsonInduction.

(** The entry of a file as a tree. *)
Definition info_json (name url : string) : json :=
  JObj [("action", JStr "DownloadOnly"); ("name", JStr name); ("url", JStr url)].

(** [g] has the objects that [h] has got since [h0], unchanged. *)
Definition agree_on_new (g h h0 : heap) : Prop :=
  ∀ l, h0 !! l = None → is_Some (h !! l) → g !! l = h !! l.

(** *** The merge as a function on trees *)

(** The document with the member [key] of its top object replaced by what
    [f] makes of it; nothing when the document is no object, has no such
    member, or [f] gives nothing. *)
Definition json_field_update (key : string) (f : json -> option json) (j : json)
  : option json :=
  match j with
  | JObj members =>
      match dict_get key members with
      | Some x =>
          match f x with
          | Some x' => Some (JObj (dict_set key x' members))
          | None => None
          end
      | None => None
      end
  | _ => None
  end.

Definition json_append (infos : list json) (j : json) : option json :=
  match j with
  | JArr items => Some (JArr (items ++ infos))
  | _ => None
  end.

(** "Append the entries to [job.setup.package.fileInformations]", on trees:
    the job document with the entries added at the end of that sequence, and
    nothing when the path does not lead to a sequence. *)
Definition append_file_infos (infos : list json) (j : json) : option json :=
  json_field_update "setup"
    (json_field_update "package"
       (json_field_update "fileInformations" (json_append infos))) j.

(** The entry of an uploaded file as a tree: its name and the stripped
    answer of the service. *)
Definition entry_json (w : world) (client : Client) (file : string) : json :=
  info_json (path_name file)
    (match http_put w (upload_url w client) file with
     | Some r => Str.strip Str.dq (text r)
     | None => EmptyString
     end).

(** What [submit_job] prepares for a document: the body of the request
    ([Some None]: a request without body), or nothing when the call raises
    before any request. *)
Definition post_body (h : heap) (job : value) : option (option json) :=
  match job with
  | VNone => Some None
  | _ =>
      match snapshot h job with
      | Some body => if finite_json body then Some (Some body) else None
      | None => None
      end
  end.

(** The same for a text: [null] goes without body, a text with a number
    that is not finite is refused, every other text is its own body. *)
Definition json_post_body (j : json) : option (option json) :=
  match j with
  | JNull => Some None
  | _ => if finite_json j then Some (Some j) else None
  end.

(** ** The end-to-end scenario and test doubles *)

Module Scenario.

(** A text between two double quotes. *)
Definition quoted (s : string) : string := Str.dq +:+ s +:+ Str.dq.

(** The template of the scenario, and the document expected from it. *)
Definition template : json :=
  JObj [("setup", JObj [("package", JObj [("fileInformations", JArr [])])])].

Definition expected : json :=
  JObj [("setup", JObj [("package", JObj [("fileInformations",
    JArr [JObj [("action", JStr "DownloadOnly");
                ("name", JStr "report.txt");
                ("url", JStr "https://x/abc")]])])])].

Definition empty_state : state := {| st_heap := ∅; st_trace := [] |}.

(** The document and the state after [json.load] of a tree into an empty
    store. *)
Definition loaded (j : json) : value * state :=
  let '(v, h) := build j ∅ in (v, {| st_heap := h; st_trace := [] |}).

End Scenario.

Module Fixtures.

Definition client : Client :=
  {| msrd_url := "https://msrd.example/"; account_id := "acct"; api_token := "secret" |}.

Definition ok (u body : string) : response :=
  {| status_code := 200; reason := "OK"; url := u; text := body |}.

(** A small file system, a service that answers the upload of [report.txt]
    with the quoted reference of the scenario, and a JSON codec that knows
    three texts. *)
Definition demo : world := {|
  urljoin := fun base path => base +:+ path;
  files := fun p =>
    if String.eqb p "report.txt" then Some {| st_size := 10; contents := "0123456789" |}
    else if String.eqb p "limit.bin" then Some {| st_size := 4194304; contents := "(4 MiB)" |}
    else if String.eqb p "big.bin" then Some {| st_size := 4194305; contents := "(4 MiB + 1)" |}
    else if String.eqb p "twice.bin" then Some {| st_size := 3; contents := "abc" |}
    else if String.eqb p "job.json" then Some {| st_size := 48; contents := "TEMPLATE" |}
    else if String.eqb p "empty.json" then Some {| st_size := 2; contents := "{}" |}
    else if String.eqb p "out.json" then Some {| st_size := 0; contents := EmptyString |}
    else None;
  http_put := fun u p =>
    if String.eqb p "twice.bin" then Some (ok u (Scenario.quoted (Scenario.quoted "abc")))
    else if String.eqb p "report.txt" then Some (ok u (Scenario.quoted "https://x/abc"))
    else if String.eqb p "limit.bin" then Some (ok u (Scenario.quoted "abc123"))
    else None;
  http_post := fun u body => Some (ok u "accepted");
  json_loads := fun s =>
    if String.eqb s "TEMPLATE" then Some Scenario.template
    else if String.eqb s "{}" then Some (JObj [])
    else if String.eqb s "null" then Some JNull
    else None;
  json_dumps := fun j =>
    match j with
    | JNull => "null"
    | JObj [] => "{}"
    | _ => "(json)"
    end
|}.

(** The answer of a service that refuses an upload: status 500 and an
    error text. *)
Definition refused (u : string) : response :=
  {| status_code := 500; reason := "Internal Server Error"; url := u;
     text := "upload failed" |}.

(** The same world, with a service that refuses the upload of
    [report.txt]. *)
Definition refusing : world := {|
  urljoin := urljoin demo;
  files := files demo;
  http_put := fun u p =>
    if String.eqb p "report.txt" then Some (refused u) else http_put demo u p;
  http_post := http_post demo;
  json_loads := json_loads demo;
  json_dumps := json_dumps demo
|}.

End Fixtures.

(** ** Properties of [str.strip] *)

Section StripFacts.

Variable chars : string.

Lemma lstrip_decompose s :
  ∃ a, s = a +:+ Str.lstrip chars s ∧ Str.all_in chars a = true.
Proof.
  induction s as [|c s IH]; simpl.
  - exists EmptyString. split; reflexivity.
  - destruct (Str.mem_char c chars) eqn:Hc.
    + destruct IH as (a & Ha & Hall). exists (String c a). simpl.
      rewrite Hc, Hall. split; [f_equal; exact Ha | reflexivity].
    + exists EmptyString. split; reflexivity.
Qed.

Lemma lstrip_clean s : Str.starts_in chars (Str.lstrip chars s) = false.
Proof.
  induction s as [|c s IH]; simpl; [reflexivity|].
  destruct (Str.mem_char c chars) eqn:Hc; [exact IH | simpl; exact Hc].
Qed.

Lemma rstrip_decompose s :
  ∃ b, s = Str.rstrip chars s +:+ b ∧ Str.all_in chars b = true.
Proof.
  induction s as [|c s IH]; simpl.
  - exists EmptyString. split; reflexivity.
  - destruct IH as (b & Hb & Hall).
    destruct (Str.rstrip chars s) as [|d r] eqn:Hr.
    + simpl in Hb. subst b.
      destruct (Str.mem_char c chars) eqn:Hc.
      * exists (String c s). simpl. rewrite Hc, Hall. split; reflexivity.
      * exists s. split; [reflexivity | exact Hall].
    + exists b. split; [simpl in *; rewrite <- Hb; reflexivity | exact Hall].
Qed.

Lemma rstrip_clean s : Str.ends_in chars (Str.rstrip chars s) = false.
Proof.
  induction s as [|c s IH]; simpl; [reflexivity|].
  destruct (Str.rstrip chars s) as [|d r] eqn:Hr.
  - destruct (Str.mem_char c chars) eqn:Hc; simpl; [reflexivity | exact Hc].
  - simpl in *. exact IH.
Qed.

Lemma rstrip_starts s :
  Str.starts_in chars s = false → Str.starts_in chars (Str.rstrip chars s) = false.
Proof.
  destruct s as [|c s]; simpl; [reflexivity|]. intros Hc.
  destruct (Str.rstrip chars s); [rewrite Hc|]; simpl; auto.
Qed.

Lemma lstrip_id s : Str.starts_in chars s = false → Str.lstrip chars s = s.
Proof. destruct s as [|c s]; simpl; [reflexivity|]. intros ->. reflexivity. Qed.

Lemma lstrip_app a s :
  Str.all_in chars a = true → Str.lstrip chars (a +:+ s) = Str.lstrip chars s.
Proof.
  induction a as [|c a IH]; simpl; [reflexivity|].
  intros H. apply andb_true_iff in H as [Hc Ha]. rewrite Hc. auto.
Qed.

Lemma lstrip_all b : Str.all_in chars b = true → Str.lstrip chars b = EmptyString.
Proof.
  induction b as [|c b IH]; simpl; [reflexivity|].
  intros H. apply andb_true_iff in H as [Hc Hb]. rewrite Hc. auto.
Qed.

Lemma rstrip_all b : Str.all_in chars b = true → Str.rstrip chars b = EmptyString.
Proof.
  induction b as [|c b IH]; simpl; [reflexivity|].
  intros H. apply andb_true_iff in H as [Hc Hb]. rewrite (IH Hb), Hc. reflexivity.
Qed.

Lemma rstrip_id s : Str.ends_in chars s = false → Str.rstrip chars s = s.
Proof.
  induction s as [|c s IH]; simpl; [reflexivity|].
  destruct s as [|d s].
  - simpl. intros ->. reflexivity.
  - intros H. rewrite (IH H). reflexivity.
Qed.

Lemma rstrip_app s b :
  Str.all_in chars b = true → Str.rstrip chars (s +:+ b) = Str.rstrip chars s.
Proof.
  intros Hb. induction s as [|c s IH]; simpl.
  - apply rstrip_all, Hb.
  - rewrite IH. reflexivity.
Qed.

(** [strip] removes a run of [chars] at each end and nothing else. *)
Lemma strip_decompose s :
  ∃ a b, s = a +:+ Str.strip chars s +:+ b
         ∧ Str.all_in chars a = true ∧ Str.all_in chars b = true.
Proof.
  destruct (lstrip_decompose s) as (a & Ha & Hall).
  destruct (rstrip_decompose (Str.lstrip chars s)) as (b & Hb & Hbll).
  exists a, b. unfold Str.strip. rewrite <- Hb. auto.
Qed.

Lemma strip_clean s :
  Str.starts_in chars (Str.strip chars s) = false
  ∧ Str.ends_in chars (Str.strip chars s) = false.
Proof.
  unfold Str.strip. split.
  - apply rstrip_starts, lstrip_clean.
  - apply rstrip_clean.
Qed.

(** A text that is clean at both ends comes back from any wrapping in
    [chars]. *)
Lemma strip_wrapped a body b :
  Str.all_in chars a = true → Str.all_in chars b = true →
  Str.starts_in chars body = false → Str.ends_in chars body = false →
  Str.strip chars (a +:+ body +:+ b) = body.
Proof.
  intros Ha Hb Hs He. unfold Str.strip.
  rewrite lstrip_app by exact Ha.
  destruct body as [|c body].
  - simpl. rewrite lstrip_all by exact Hb. reflexivity.
  - rewrite lstrip_id by exact Hs. rewrite rstrip_app by exact Hb.
    apply rstrip_id, He.
Qed.

End StripFacts.

(** ** Facts about the decimal numeral *)

(** [str(n)] is the decimal numeral of [n]: read as a numeral, it gives [n]
    back. *)
Lemma of_Z_reads_back (n : Z) :
  Z.of_int <$> NilZero.int_of_string (Str.of_Z n) = Some n.
Proof.
  unfold Str.of_Z. rewrite NilZero.isi.
  - simpl. f_equal. apply DecimalZ.of_to.
  - destruct n as [|p|p]; simpl; try discriminate.
    intros [= H]. exact (DecimalPos.Unsigned.to_uint_nonnil p H).
  - destruct n as [|p|p]; simpl; try discriminate.
    intros [= H]. exact (DecimalPos.Unsigned.to_uint_nonnil p H).
Qed.

(** ** Runs of the upload phase *)

Section UploadFacts.

Variable w : world.
Variable client : Client.

(** What one call of [upload_file_and_generate_file_info] does, by cases on
    what the world answers. *)
Lemma upload_info_run file st :
  upload_file_and_generate_file_info w client file st =
  match files w file with
  | None => (Raise FileNotFoundError, st)
  | Some f =>
      if st_size f >? MAX_FILE_SIZE
      then (Exit 1, log st [EvPrint (size_error_message file (st_size f))])
      else
        match http_put w (upload_url w client) file with
        | None => (Raise ConnectionError, log st [EvPut (upload_url w client) file])
        | Some r =>
            let l := fresh (dom (st_heap st)) in
            (Ret (VRef l),
             {| st_heap :=
                  <[l := ODict (file_info_entries (path_name file)
                                  (Str.strip Str.dq (text r)))]> (st_heap st);
                st_trace :=
                  st_trace st ++ [EvPut (upload_url w client) file; EvPrint (hook_line r)] |})
        end
  end.
Proof.
  unfold upload_file_and_generate_file_info, path_stat_size, upload_file, py_open, bind.
  destruct (files w file) as [f|] eqn:Hf; [|reflexivity]. simpl.
  destruct (st_size f >? MAX_FILE_SIZE) eqn:Hsz; [reflexivity|]. simpl.
  destruct (http_put w (upload_url w client) file) as [r|] eqn:Hput; simpl.
  - unfold alloc. simpl. rewrite <- app_assoc. reflexivity.
  - reflexivity.
Qed.

Lemma grown_refl h : grown h h.
Proof. split; [reflexivity | auto]. Qed.

Lemma grown_trans h1 h2 h3 : grown h1 h2 → grown h2 h3 → grown h1 h3.
Proof.
  intros [S12 N12] [S23 N23]. split; [etrans; eauto|].
  intros l Hl. destruct (N12 l Hl) as [H2|(n & u & H2)].
  - apply N23, H2.
  - right. exists n, u. eapply lookup_weaken; eauto.
Qed.

Lemma grown_alloc (h : heap) name url :
  grown h (<[fresh (dom h) := ODict (file_info_entries name url)]> h).
Proof.
  assert (Hfresh : h !! fresh (dom h) = None)
    by (apply not_elem_of_dom, is_fresh).
  split.
  - apply insert_subseteq, Hfresh.
  - intros l Hl. destruct (decide (l = fresh (dom h))) as [->|Hne].
    + right. exists name, url. apply lookup_insert_eq.
    + left. rewrite lookup_insert_ne by congruence. exact Hl.
Qed.

(** One upload: the store grows, the trace gets upload events only, a
    result is a FileInformation for the file, and a failure means that the
    upload of this file did not go through. *)
Lemma upload_info_spec file st r st' :
  upload_file_and_generate_file_info w client file st = (r, st') →
  grown (st_heap st) (st_heap st')
  ∧ (∃ evs, st_trace st' = st_trace st ++ evs
            ∧ Forall (upload_event w client) evs
            ∧ omap (fun e => match e with EvPut _ p => Some p | _ => None end) evs
              = (if upload_ok w client file then [file] else
                   match r with Raise ConnectionError => [file] | _ => [] end))
  ∧ match r with
    | Ret v => upload_ok w client file = true ∧ info_for w client (st_heap st') file v
               ∧ ∃ l, v = VRef l ∧ st_heap st !! l = None
    | _ => upload_ok w client file = false
    end.
Proof.
  rewrite upload_info_run. unfold upload_ok.
  destruct (files w file) as [f|] eqn:Hf.
  2:{ intros [= <- <-]. split; [apply grown_refl|]. split; [|reflexivity].
      exists []. rewrite app_nil_r. auto. }
  destruct (st_size f >? MAX_FILE_SIZE) eqn:Hsz.
  { intros [= <- <-]. split; [apply grown_refl|]. split; [|reflexivity].
    exists [EvPrint (size_error_message file (st_size f))].
    repeat split; auto. repeat constructor. }
  destruct (http_put w (upload_url w client) file) as [resp|] eqn:Hput.
  - intros [= <- <-]. simpl. split; [apply grown_alloc|]. split.
    + eexists. split; [reflexivity|]. split.
      * repeat constructor. exists f. split; [exact Hf | lia].
      * reflexivity.
    + split; [reflexivity|]. split.
      * exists (fresh (dom (st_heap st))), f, resp.
        repeat split; auto. apply lookup_insert_eq.
      * eexists. split; [reflexivity|]. apply not_elem_of_dom, is_fresh.
  - intros [= <- <-]. simpl. split; [apply grown_refl|].
    split; [|reflexivity].
    eexists. split; [reflexivity|]. split; [|reflexivity].
    repeat constructor. exists f. split; [exact Hf | lia].
Qed.

Lemma info_for_mono h h' file v :
  h ⊆ h' → info_for w client h file v → info_for w client h' file v.
Proof.
  intros Hsub (l & f & r & -> & Hf & Hput & Hl).
  exists l, f, r. repeat split; auto. eapply lookup_weaken; eauto.
Qed.

Lemma uploads_log st st' evs :
  st_trace st' = st_trace st ++ evs →
  uploads st' = uploads st
    ++ omap (fun e => match e with EvPut _ p => Some p | _ => None end) evs.
Proof. unfold uploads. intros ->. apply omap_app. Qed.

(** The whole [for file in files] loop. *)
Lemma upload_files_spec files acc st r st' :
  upload_files w client files acc st = (r, st') →
  grown (st_heap st) (st_heap st')
  ∧ (∃ evs, st_trace st' = st_trace st ++ evs ∧ Forall (upload_event w client) evs)
  ∧ match r with
    | Ret infos =>
        ∃ news, infos = acc ++ news
                ∧ Forall2 (info_for w client (st_heap st')) files news
                ∧ Forall (fun f => upload_ok w client f = true) files
                ∧ uploads st' = uploads st ++ files
    | _ => Exists (fun f => upload_ok w client f = false) files
    end.
Proof.
  revert acc st. induction files as [|file rest IH]; intros acc st; simpl.
  - intros [= <- <-]. split; [apply grown_refl|]. split.
    + exists []. rewrite app_nil_r. auto.
    + exists []. rewrite !app_nil_r. auto.
  - unfold bind.
    destruct (upload_file_and_generate_file_info w client file st) as [r1 st1] eqn:H1.
    apply upload_info_spec in H1 as (Hg1 & (evs1 & Ht1 & He1 & Hu1) & Hr1).
    destruct r1 as [v|c|e].
    + intros Hrest. apply IH in Hrest as (Hg2 & (evs2 & Ht2 & He2) & Hr2).
      destruct Hr1 as (Hok & Hinfo & _). rewrite Hok in Hu1.
      split; [eapply grown_trans; eauto|]. split.
      * exists (evs1 ++ evs2). rewrite Ht2, Ht1, app_assoc. split; [reflexivity|].
        apply Forall_app; auto.
      * destruct r as [infos|c|e].
        -- destruct Hr2 as (news & -> & Hall & Hoks & Hups).
           exists (v :: news). rewrite <- app_assoc. split; [reflexivity|]. split.
           ++ constructor; [|exact Hall].
              eapply info_for_mono; [apply Hg2 | exact Hinfo].
           ++ split; [constructor; auto|].
              rewrite Hups, (uploads_log st st1 evs1 Ht1), Hu1, <- app_assoc.
              reflexivity.
        -- apply Exists_cons_tl, Hr2.
        -- apply Exists_cons_tl, Hr2.
    + intros [= <- <-]. split; [exact Hg1|]. split; [eauto|].
      apply Exists_cons_hd, Hr1.
    + intros [= <- <-]. split; [exact Hg1|]. split; [eauto|].
      apply Exists_cons_hd, Hr1.
Qed.

(** When every upload goes through, the loop returns. *)
Lemma upload_files_total files acc st :
  Forall (fun f => upload_ok w client f = true) files →
  ∃ infos st', upload_files w client files acc st = (Ret infos, st').
Proof.
  revert acc st. induction files as [|file rest IH]; intros acc st Hall; simpl.
  - eauto.
  - apply Forall_cons in Hall as [Hok Hrest]. unfold bind.
    rewrite upload_info_run. unfold upload_ok in Hok.
    destruct (files w file) as [f|]; [|discriminate].
    destruct (st_size f >? MAX_FILE_SIZE); [discriminate|]. simpl in Hok.
    destruct (http_put w (upload_url w client) file) as [resp|].
    + apply IH, Hrest.
    + apply bool_decide_eq_true in Hok as [x Hx]. discriminate.
Qed.

End UploadFacts.

(** ** Runs of the merge phase *)

Section MergeFacts.

Lemma getitem_some v key st x :
  field (st_heap st) v key = Some x → getitem v key st = (Ret x, st).
Proof.
  unfold field, getitem. destruct v as [| | | |l]; try discriminate.
  destruct (st_heap st !! l) as [[entries|items]|]; try discriminate.
  intros ->. reflexivity.
Qed.

Lemma getitem_none v key st :
  field (st_heap st) v key = None →
  getitem v key st = (Raise KeyError, st) ∨ getitem v key st = (Raise TypeError, st).
Proof.
  unfold field, getitem. destruct v as [| | | |l]; auto.
  destruct (st_heap st !! l) as [[entries|items]|]; auto.
  intros ->. auto.
Qed.

Lemma list_append_some v x st l items :
  as_list (st_heap st) v = Some (l, items) →
  list_append v x st =
  (Ret tt, {| st_heap := <[l := OList (items ++ [x])]> (st_heap st);
              st_trace := st_trace st ++ [EvAppend l x] |}).
Proof.
  unfold as_list, list_append. destruct v as [| | | |l0]; try discriminate.
  destruct (st_heap st !! l0) as [[entries|items0]|]; try discriminate.
  intros [= -> ->]. reflexivity.
Qed.

Lemma list_append_none v x st :
  as_list (st_heap st) v = None → list_append v x st = (Raise AttributeError, st).
Proof.
  unfold as_list, list_append. destruct v as [| | | |l0]; auto.
  destruct (st_heap st !! l0) as [[entries|items0]|]; auto. discriminate.
Qed.

Lemma as_list_lookup h v l items :
  as_list h v = Some (l, items) → v = VRef l ∧ h !! l = Some (OList items).
Proof.
  unfold as_list. destruct v as [| | | |l0]; try discriminate.
  destruct (h !! l0) as [[entries|items0]|] eqn:Hl; try discriminate.
  intros [= -> ->]. auto.
Qed.

(** Replacing a list object by a list object does not change what the
    dictionaries say. *)
Lemma field_insert_list (h : heap) l items items' v key :
  h !! l = Some (OList items) →
  field (<[l := OList items']> h) v key = field h v key.
Proof.
  intros Hl. unfold field. destruct v as [| | | |l0]; auto.
  destruct (decide (l0 = l)) as [->|Hne].
  - rewrite lookup_insert_eq, Hl. reflexivity.
  - rewrite lookup_insert_ne by congruence. reflexivity.
Qed.

Lemma file_informations_insert (h : heap) job l items items' :
  file_informations h job = Some (l, items) →
  file_informations (<[l := OList items']> h) job = Some (l, items').
Proof.
  unfold file_informations.
  destruct (field h job "setup") as [setup|] eqn:E1; [|discriminate].
  destruct (field h setup "package") as [package|] eqn:E2; [|discriminate].
  destruct (field h package "fileInformations") as [infos|] eqn:E3; [|discriminate].
  intros Hl. apply as_list_lookup in Hl as [-> Hl].
  rewrite (field_insert_list h l items items') by exact Hl. rewrite E1.
  rewrite (field_insert_list h l items items') by exact Hl. rewrite E2.
  rewrite (field_insert_list h l items items') by exact Hl. rewrite E3.
  unfold as_list. rewrite lookup_insert_eq. reflexivity.
Qed.

Lemma file_informations_lookup h job l items :
  file_informations h job = Some (l, items) → h !! l = Some (OList items).
Proof.
  unfold file_informations.
  destruct (field h job "setup") as [setup|]; [|discriminate].
  destruct (field h setup "package") as [package|]; [|discriminate].
  destruct (field h package "fileInformations") as [infos|]; [|discriminate].
  intros Hl. apply as_list_lookup in Hl as [_ Hl]. exact Hl.
Qed.

Lemma field_mono h h' v key x :
  h ⊆ h' → field h v key = Some x → field h' v key = Some x.
Proof.
  intros Hsub. unfold field. destruct v as [| | | |l]; auto.
  destruct (h !! l) as [o|] eqn:Hl; [|discriminate].
  rewrite (lookup_weaken _ _ _ _ Hl Hsub). auto.
Qed.

Lemma as_list_mono h h' v p :
  h ⊆ h' → as_list h v = Some p → as_list h' v = Some p.
Proof.
  intros Hsub. unfold as_list. destruct v as [| | | |l]; auto.
  destruct (h !! l) as [o|] eqn:Hl; [|discriminate].
  rewrite (lookup_weaken _ _ _ _ Hl Hsub). auto.
Qed.

Lemma file_informations_mono h h' job p :
  h ⊆ h' → file_informations h job = Some p → file_informations h' job = Some p.
Proof.
  intros Hsub. unfold file_informations.
  destruct (field h job "setup") as [setup|] eqn:E1; [|discriminate].
  destruct (field h setup "package") as [package|] eqn:E2; [|discriminate].
  destruct (field h package "fileInformations") as [infos|] eqn:E3; [|discriminate].
  rewrite (field_mono _ _ _ _ _ Hsub E1), (field_mono _ _ _ _ _ Hsub E2),
    (field_mono _ _ _ _ _ Hsub E3).
  apply as_list_mono, Hsub.
Qed.

(** A FileInformation dictionary has none of the keys of the path, and is
    no list: the objects of the upload phase cannot complete a path that
    was broken. *)
Lemma field_grown_none h h' v key :
  grown h h' →
  (∀ name url, dict_get key (file_info_entries name url) = None) →
  field h v key = None → field h' v key = None.
Proof.
  intros [Hsub Hnew] Hkey. unfold field. destruct v as [| | | |l]; auto.
  destruct (h !! l) as [o|] eqn:Hl.
  - rewrite (lookup_weaken _ _ _ _ Hl Hsub). auto.
  - intros _. destruct (Hnew l Hl) as [-> | (n & u & ->)]; auto.
Qed.

Lemma as_list_grown_none h h' v :
  grown h h' → as_list h v = None → as_list h' v = None.
Proof.
  intros [Hsub Hnew]. unfold as_list. destruct v as [| | | |l]; auto.
  destruct (h !! l) as [o|] eqn:Hl.
  - rewrite (lookup_weaken _ _ _ _ Hl Hsub). auto.
  - intros _. destruct (Hnew l Hl) as [-> | (n & u & ->)]; auto.
Qed.

Lemma file_informations_grown_none h h' job :
  grown h h' → file_informations h job = None → file_informations h' job = None.
Proof.
  intros Hg. unfold file_informations.
  destruct (field h job "setup") as [setup|] eqn:E1.
  2:{ intros _. rewrite (field_grown_none h h' job "setup" Hg); auto. }
  rewrite (field_mono _ _ _ _ _ (proj1 Hg) E1).
  destruct (field h setup "package") as [package|] eqn:E2.
  2:{ intros _. rewrite (field_grown_none h h' setup "package" Hg); auto. }
  rewrite (field_mono _ _ _ _ _ (proj1 Hg) E2).
  destruct (field h package "fileInformations") as [infos|] eqn:E3.
  2:{ intros _. rewrite (field_grown_none h h' package "fileInformations" Hg); auto. }
  rewrite (field_mono _ _ _ _ _ (proj1 Hg) E3).
  apply as_list_grown_none, Hg.
Qed.

(** The merge on a document without the path: the first append fails, the
    message is printed and the run exits with status 1; nothing is changed. *)
Lemma update_malformed job file_info rest st :
  file_informations (st_heap st) job = None →
  update_file_info_in_job job (file_info :: rest) st
  = (Exit 1, log st [EvPrint missing_structure_message]).
Proof.
  unfold file_informations. intros H. simpl. unfold bind at 1. unfold try_except, bind.
  destruct (field (st_heap st) job "setup") as [setup|] eqn:E1.
  2:{ destruct (getitem_none _ _ _ E1) as [-> | ->]; reflexivity. }
  rewrite (getitem_some _ _ _ _ E1).
  destruct (field (st_heap st) setup "package") as [package|] eqn:E2.
  2:{ destruct (getitem_none _ _ _ E2) as [-> | ->]; reflexivity. }
  rewrite (getitem_some _ _ _ _ E2).
  destruct (field (st_heap st) package "fileInformations") as [infos|] eqn:E3.
  2:{ destruct (getitem_none _ _ _ E3) as [-> | ->]; reflexivity. }
  rewrite (getitem_some _ _ _ _ E3).
  rewrite (list_append_none _ _ _ H). reflexivity.
Qed.

(** The merge on a document with the path: every entry is appended to the
    one list object, in order, and the document itself is returned. *)
Lemma update_wellformed job file_infos st l items :
  file_informations (st_heap st) job = Some (l, items) →
  update_file_info_in_job job file_infos st
  = (Ret job, {| st_heap := <[l := OList (items ++ file_infos)]> (st_heap st);
                 st_trace := st_trace st ++ map (EvAppend l) file_infos |}).
Proof.
  revert st items. induction file_infos as [|x rest IH]; intros st items H; simpl.
  - rewrite !app_nil_r, insert_id by (eapply file_informations_lookup; eauto).
    destruct st; reflexivity.
  - unfold bind at 1. unfold try_except, bind.
    pose proof H as H'. unfold file_informations in H'.
    destruct (field (st_heap st) job "setup") as [setup|] eqn:E1; [|discriminate].
    rewrite (getitem_some _ _ _ _ E1).
    destruct (field (st_heap st) setup "package") as [package|] eqn:E2; [|discriminate].
    rewrite (getitem_some _ _ _ _ E2).
    destruct (field (st_heap st) package "fileInformations") as [infos|] eqn:E3;
      [|discriminate].
    rewrite (getitem_some _ _ _ _ E3).
    rewrite (list_append_some _ x _ _ _ H').
    rewrite (IH _ (items ++ [x])) by (simpl; apply file_informations_insert with items, H).
    simpl. rewrite insert_insert_eq, <- !app_assoc. reflexivity.
Qed.

End MergeFacts.

(** ** What the encoder sees does not depend on new objects *)

Section SnapshotFacts.

Lemma reify_mono n : ∀ m h h' v j,
  h ⊆ h' → (n ≤ m)%nat → reify n h v = Some j → reify m h' v = Some j.
Proof.
  induction n as [|n IH]; intros m h h' v j Hsub Hle.
  - destruct v; simpl; try discriminate; destruct m; auto.
  - destruct v as [| | | |l]; try (destruct m; auto; fail).
    destruct m as [|m]; [lia|]. simpl.
    destruct (h !! l) as [o|] eqn:Hl; [|discriminate].
    rewrite (lookup_weaken _ _ _ _ Hl Hsub).
    destruct o as [entries|items]; intros H;
      apply fmap_Some in H as (js & Hjs & ->); apply fmap_Some;
      exists js; split; auto;
      apply mapM_Some; apply mapM_Some in Hjs;
      (eapply Forall2_impl; [exact Hjs|]); simpl.
    + intros kv kj Hkv. apply fmap_Some in Hkv as (j' & Hj' & ->).
      apply fmap_Some. exists j'. split; auto. eapply IH; eauto. lia.
    + intros x y Hxy. eapply IH; eauto. lia.
Qed.

(** A document that the encoder can write is written the same after the
    store has got new objects. *)
Lemma snapshot_mono h h' v j :
  h ⊆ h' → snapshot h v = Some j → snapshot h' v = Some j.
Proof.
  intros Hsub. unfold snapshot. apply reify_mono; [exact Hsub|].
  apply map_subseteq_size, Hsub.
Qed.

End SnapshotFacts.

(** ** Runs of [add_file_info_to_job] *)

Section AssemblyFacts.

Variable w : world.
Variable client : Client.

Lemma upload_files_app pre rest acc st :
  upload_files w client (pre ++ rest) acc st
  = bind (upload_files w client pre acc) (fun infos => upload_files w client rest infos) st.
Proof.
  revert acc st. induction pre as [|file pre IH]; intros acc st; simpl.
  - reflexivity.
  - unfold bind in *.
    destruct (upload_file_and_generate_file_info w client file st) as [[v|c|e] st1];
      auto.
Qed.

Lemma info_for_insert_list (h : heap) l items items' file v :
  h !! l = Some (OList items) →
  info_for w client h file v →
  info_for w client (<[l := OList items']> h) file v.
Proof.
  intros Hl (li & f & r & -> & Hf & Hput & Hli).
  exists li, f, r. repeat split; auto.
  rewrite lookup_insert_ne; [exact Hli | congruence].
Qed.

Lemma upload_event_not_append e : upload_event w client e → is_append e = false.
Proof. destruct e; simpl; tauto. Qed.

Lemma upload_event_quiet e :
  upload_event w client e → is_post e = false ∧ is_write e = false.
Proof. destruct e; simpl; tauto. Qed.

Lemma merge_event_not_put e : merge_event e → is_put e = false.
Proof. destruct e; simpl; tauto. Qed.

Lemma merge_event_quiet e : merge_event e → is_post e = false ∧ is_write e = false.
Proof. destruct e; simpl; tauto. Qed.

(** The shape of every run: an upload phase, then a merge phase that starts
    only when the upload loop has returned a non-empty list of entries. *)
Lemma add_file_info_phases job files st r st' :
  add_file_info_to_job w client job files st = (r, st') →
  ∃ r1 st1 ups apps,
    upload_files w client files [] st = (r1, st1)
    ∧ st_trace st1 = st_trace st ++ ups
    ∧ st_trace st' = st_trace st1 ++ apps
    ∧ Forall (upload_event w client) ups
    ∧ Forall merge_event apps
    ∧ grown (st_heap st) (st_heap st1)
    ∧ match r1 with
      | Ret [] => r = Ret job ∧ st' = st1
      | Ret (x :: rest) => update_file_info_in_job job (x :: rest) st1 = (r, st')
      | Exit c => r = Exit c ∧ st' = st1
      | Raise e => r = Raise e ∧ st' = st1
      end.
Proof.
  unfold add_file_info_to_job, bind.
  destruct (upload_files w client files [] st) as [r1 st1] eqn:Hup.
  pose proof (upload_files_spec w client _ _ _ _ _ Hup) as (Hg & (ups & Ht & Hu) & _).
  intros Hrun. exists r1, st1, ups.
  destruct r1 as [[|x rest]|c|e].
  - injection Hrun as <- <-. exists []. rewrite app_nil_r. auto 10.
  - destruct (file_informations (st_heap st1) job) as [[l items]|] eqn:Hfi.
    + rewrite (update_wellformed _ _ _ _ _ Hfi) in Hrun. injection Hrun as <- <-.
      exists (map (EvAppend l) (x :: rest)).
      split_and!; auto.
      * apply Forall_map, Forall_true. intros; exact I.
      * apply update_wellformed, Hfi.
    + rewrite (update_malformed _ _ _ _ Hfi) in Hrun. injection Hrun as <- <-.
      exists [EvPrint missing_structure_message].
      split_and!; auto.
      * repeat constructor.
      * apply update_malformed, Hfi.
  - injection Hrun as <- <-. exists []. rewrite app_nil_r. auto 10.
  - injection Hrun as <- <-. exists []. rewrite app_nil_r. auto 10.
Qed.

End AssemblyFacts.

(** ** The claims *)

(** C6.  With an empty file list, [add_file_info_to_job] returns the very
    document it was given and leaves the store and the trace as they were:
    nothing is uploaded, nothing is merged and nothing fails, whatever the
    document looks like. *)
Theorem empty_file_list_is_identity (w : world) (client : Client) (job : value) (st : state) :
  add_file_info_to_job w client job [] st = (Ret job, st).
Proof. reflexivity. Qed.

(** C9.  [print_response] prints the raw text of a response whose body does
    not parse as JSON, and the dump of the parsed structure of one whose
    body does; in both cases it returns normally. *)
Theorem print_response_falls_back_to_text (w : world) (r : response) (st : state) :
  (json_loads w (text r) = None →
   print_response w r st = (Ret tt, log st [EvPrint (text r)]))
  ∧ (∀ j, json_loads w (text r) = Some j →
          print_response w r st = (Ret tt, log st [EvPrint (json_dumps w j)])).
Proof.
  unfold print_response, try_except, bind, response_json. split.
  - intros ->. reflexivity.
  - intros j ->. reflexivity.
Qed.

(** C4.  A file of more than 4,194,304 bytes makes
    [upload_file_and_generate_file_info] print one line and exit with status
    1, with no request made.  The line is the text [ERROR: file ], the path
    as it was given between two double quotes, [ has byte size ], the
    decimal numeral of the size in bytes (read as a numeral it gives the
    size back) and [, which exceeds limit of 4mb]: it identifies the file
    and its size.  Inside [add_file_info_to_job] the whole run exits there,
    after the uploads of the files listed before it only.  A file of exactly
    4,194,304 bytes passes the check: the request is made, and an answer
    yields an entry. *)
Theorem oversized_file_aborts_before_upload
    (w : world) (client : Client) (file : string) (f : file_data) (st : state) :
  files w file = Some f →
  MAX_FILE_SIZE = 4194304
  ∧ (st_size f > 4194304 →
     upload_file_and_generate_file_info w client file st
     = (Exit 1, log st [EvPrint (size_error_message file (st_size f))])
     ∧ size_error_message file (st_size f)
       = "ERROR: file " +:+ String (ascii_of_nat 34) EmptyString +:+ file
         +:+ String (ascii_of_nat 34) EmptyString +:+ " has byte size "
         +:+ Str.of_Z (st_size f) +:+ ", which exceeds limit of 4mb"
     ∧ Z.of_int <$> NilZero.int_of_string (Str.of_Z (st_size f)) = Some (st_size f)
     ∧ ∀ job pre post,
         Forall (fun p => upload_ok w client p = true) pre →
         ∃ st', add_file_info_to_job w client job (pre ++ file :: post) st = (Exit 1, st')
                ∧ uploads st' = uploads st ++ pre
                ∧ List.last (printed st') EmptyString = size_error_message file (st_size f)
                ∧ st_heap st ⊆ st_heap st')
  ∧ (st_size f = 4194304 →
     ∃ r st', upload_file_and_generate_file_info w client file st = (r, st')
              ∧ uploads st' = uploads st ++ [file]
              ∧ (∀ c, r ≠ Exit c)
              ∧ (is_Some (http_put w (upload_url w client) file) → ∃ l, r = Ret (VRef l))).
Proof.
  intros Hf. split; [reflexivity|]. split.
  - intros Hbig.
    assert (Hone : ∀ st0, upload_file_and_generate_file_info w client file st0
                   = (Exit 1, log st0 [EvPrint (size_error_message file (st_size f))])).
    { intros st0. rewrite upload_info_run, Hf.
      replace (st_size f >? MAX_FILE_SIZE) with true; [reflexivity|].
      symmetry. apply Z.gtb_lt. unfold MAX_FILE_SIZE. lia. }
    split; [apply Hone|].
    split; [reflexivity|]. split; [apply of_Z_reads_back|].
    intros job pre post Hpre.
    destruct (upload_files_total w client pre [] st Hpre) as (infos & st1 & Hup).
    pose proof (upload_files_spec w client _ _ _ _ _ Hup)
      as (Hg & _ & (news & _ & _ & _ & Hups)).
    exists (log st1 [EvPrint (size_error_message file (st_size f))]).
    split_and!.
    + unfold add_file_info_to_job, bind at 1. rewrite upload_files_app.
      unfold bind at 1. rewrite Hup. simpl. unfold bind at 1. rewrite Hone. reflexivity.
    + unfold uploads in *. simpl. rewrite omap_app, Hups. simpl. apply app_nil_r.
    + unfold printed. simpl. rewrite omap_app. simpl. apply last_last.
    + apply Hg.
  - intros Heq. rewrite upload_info_run, Hf.
    replace (st_size f >? MAX_FILE_SIZE) with false
      by (symmetry; rewrite Z.gtb_ltb; apply Z.ltb_ge; unfold MAX_FILE_SIZE; lia).
    destruct (http_put w (upload_url w client) file) as [resp|].
    + eexists _, _. split; [reflexivity|]. unfold uploads. simpl.
      rewrite omap_app. split_and!; [reflexivity | discriminate | eauto].
    + eexists _, _. split; [reflexivity|]. unfold uploads. simpl.
      rewrite omap_app. split_and!; [reflexivity | discriminate |].
      intros [x Hx]. discriminate.
Qed.

Section BaseName.

Lemma split_nonempty sep s : ∃ x xs, Str.split sep s = x :: xs.
Proof.
  destruct s as [|a s]; simpl; [eauto|].
  destruct (Ascii.eqb a sep); [eauto|].
  destruct (Str.split sep s); eauto.
Qed.

Lemma split_no_sep sep name :
  Str.mem_char sep name = false → Str.split sep name = [name].
Proof.
  induction name as [|a name IH]; simpl; [reflexivity|].
  rewrite Ascii.eqb_sym. intros H. apply orb_false_iff in H as [Ha Hn].
  rewrite Ha, (IH Hn). reflexivity.
Qed.

Lemma split_dir_name sep dir name :
  Str.mem_char sep name = false →
  Str.split sep (dir +:+ String sep name) = Str.split sep dir ++ [name].
Proof.
  intros Hn. induction dir as [|a dir IH]; simpl.
  - rewrite Ascii.eqb_refl, (split_no_sep _ _ Hn). reflexivity.
  - rewrite IH. destruct (Ascii.eqb a sep); [reflexivity|].
    destruct (split_nonempty sep dir) as (x & xs & ->). reflexivity.
Qed.

(** The name of a path is what stands after its last ['/']. *)
Lemma path_name_base dir name :
  Str.mem_char "/" name = false → name ≠ EmptyString → name ≠ "." →
  path_name (dir +:+ "/" +:+ name) = name ∧ path_name name = name.
Proof.
  intros Hn H1 H2. unfold path_name, path_parts. split.
  - change ("/" +:+ name) with (String "/" name).
    rewrite split_dir_name by exact Hn.
    rewrite filter_app, filter_cons_True by auto. simpl. apply last_last.
  - rewrite split_no_sep by exact Hn. rewrite filter_cons_True by auto. reflexivity.
Qed.

End BaseName.

(** C1 (as amended).  The [url] stored in the entry of an uploaded file is
    the response text without the double quotes at its two ends, however
    many there are: [str.strip] removes a run of quotes on each side.  When
    the text is one pair of quotes around a body that neither begins nor
    ends with a quote, exactly that pair goes: the quoted [abc123] gives
    [abc123] and two quotes alone give the empty string. *)
Theorem stored_url_is_response_without_end_quotes
    (w : world) (client : Client) (file : string) (f : file_data) (r : response) (st : state) :
  files w file = Some f →
  st_size f <= MAX_FILE_SIZE →
  http_put w (upload_url w client) file = Some r →
  ∃ l st' u,
    upload_file_and_generate_file_info w client file st = (Ret (VRef l), st')
    ∧ field (st_heap st') (VRef l) "url" = Some (VStr u)
    ∧ u = Str.strip Str.dq (text r)
    ∧ (∃ a b, text r = a +:+ u +:+ b
              ∧ Str.all_in Str.dq a = true ∧ Str.all_in Str.dq b = true)
    ∧ Str.starts_in Str.dq u = false
    ∧ Str.ends_in Str.dq u = false
    ∧ (∀ body, Str.starts_in Str.dq body = false → Str.ends_in Str.dq body = false →
               one_quote_removed_each_end (text r) body → u = body)
    ∧ (text r = Str.dq +:+ "abc123" +:+ Str.dq → u = "abc123")
    ∧ (text r = Str.dq +:+ Str.dq → u = EmptyString).
Proof.
  intros Hf Hsz Hput.
  exists (fresh (dom (st_heap st))). eexists. exists (Str.strip Str.dq (text r)).
  split.
  { rewrite upload_info_run, Hf, Hput.
    replace (st_size f >? MAX_FILE_SIZE) with false
      by (symmetry; rewrite Z.gtb_ltb; apply Z.ltb_ge; lia).
    reflexivity. }
  split; [simpl; rewrite lookup_insert_eq; reflexivity|].
  split; [reflexivity|].
  split; [apply strip_decompose|].
  split; [apply strip_clean|].
  split; [apply strip_clean|].
  assert (Hbody : ∀ body, Str.starts_in Str.dq body = false →
                          Str.ends_in Str.dq body = false →
                          one_quote_removed_each_end (text r) body →
                          Str.strip Str.dq (text r) = body).
  { intros body Hs He ->. apply strip_wrapped; auto. }
  split; [exact Hbody|]. split.
  - intros Ht. apply Hbody; auto.
  - intros Ht. apply (Hbody EmptyString); auto.
Qed.

(** The objects that [json.load] builds for the template of the end-to-end
    scenario. *)
Lemma loaded_template_run :
  Scenario.loaded Scenario.template
  = (VRef 4%positive,
     {| st_heap := list_to_map [(1%positive, OList []);
                   (2%positive, ODict [("fileInformations", VRef 1%positive)]);
                   (3%positive, ODict [("package", VRef 2%positive)]);
                   (4%positive, ODict [("setup", VRef 3%positive)])];
        st_trace := [] |}).
Proof. vm_compute. reflexivity. Qed.

(** C5.  The entry built for a file is a dictionary with exactly the three
    entries [action] = [DownloadOnly], [name] = the name of the path (what
    stands after its last slash) and [url] = the stripped response text.  In
    the end-to-end scenario (a template with an empty list, the one file
    [report.txt], an upload answered by the quoted or bare [https://x/abc])
    the assembled document is the expected one. *)
Theorem file_information_has_action_name_url (w : world) (client : Client) :
  (∀ file f r st,
     files w file = Some f →
     st_size f <= MAX_FILE_SIZE →
     http_put w (upload_url w client) file = Some r →
     ∃ l st',
       upload_file_and_generate_file_info w client file st = (Ret (VRef l), st')
       ∧ st_heap st' !! l
         = Some (ODict [("action", VStr "DownloadOnly");
                        ("name", VStr (path_name file));
                        ("url", VStr (Str.strip Str.dq (text r)))]))
  ∧ (∀ dir name,
       Str.mem_char "/" name = false → name ≠ EmptyString → name ≠ "." →
       path_name (dir +:+ "/" +:+ name) = name ∧ path_name name = name)
  ∧ (∀ f r,
       files w "report.txt" = Some f →
       st_size f <= MAX_FILE_SIZE →
       http_put w (upload_url w client) "report.txt" = Some r →
       text r = Scenario.quoted "https://x/abc" ∨ text r = "https://x/abc" →
       ∃ job' st',
         add_file_info_to_job w client (fst (Scenario.loaded Scenario.template))
           ["report.txt"] (snd (Scenario.loaded Scenario.template)) = (Ret job', st')
         ∧ snapshot (st_heap st') job' = Some Scenario.expected).
Proof.
  split_and!.
  - intros file f r st Hf Hsz Hput.
    exists (fresh (dom (st_heap st))). eexists. split.
    + rewrite upload_info_run, Hf, Hput.
      replace (st_size f >? MAX_FILE_SIZE) with false
        by (symmetry; rewrite Z.gtb_ltb; apply Z.ltb_ge; lia).
      reflexivity.
    + simpl. apply lookup_insert_eq.
  - apply path_name_base.
  - intros f r Hf Hsz Hput Htext.
    assert (Hurl : Str.strip Str.dq (text r) = "https://x/abc")
      by (destruct Htext as [-> | ->]; reflexivity).
    rewrite loaded_template_run. unfold fst, snd.
    unfold add_file_info_to_job, upload_files, bind.
    rewrite upload_info_run, Hf, Hput, Hurl.
    replace (st_size f >? MAX_FILE_SIZE) with false
      by (symmetry; rewrite Z.gtb_ltb; apply Z.ltb_ge; lia).
    cbv beta iota zeta delta [ret app].
    erewrite update_wellformed by (vm_compute; reflexivity).
    eexists _, _. split; [reflexivity|]. vm_compute. reflexivity.
Qed.

(** C3.  On a document that has the list at [setup.package.fileInformations]
    and for a non-empty file list, the list of the assembled document is the
    original one followed by one entry per file, in the order of the file
    list: its length is the original length plus the number of files. *)
Theorem appended_entries_follow_file_order
    (w : world) (client : Client) (job job' : value) (files : list string)
    (st st' : state) (l : loc) (items : list value) :
  files ≠ [] →
  file_informations (st_heap st) job = Some (l, items) →
  add_file_info_to_job w client job files st = (Ret job', st') →
  ∃ news,
    file_informations (st_heap st') job' = Some (l, items ++ news)
    ∧ length (items ++ news) = (length items + length files)%nat
    ∧ Forall2 (info_for w client (st_heap st')) files news.
Proof.
  intros Hne Hfi Hrun.
  apply add_file_info_phases in Hrun
    as (r1 & st1 & ups & apps & Hup & _ & _ & _ & _ & Hg & Hcase).
  pose proof (upload_files_spec w client _ _ _ _ _ Hup) as (_ & _ & Hr1).
  destruct r1 as [[|x rest]|c|e]; try (destruct Hcase; discriminate).
  - destruct Hr1 as (news & Hnews & Hall & _).
    destruct news; [|discriminate]. apply Forall2_nil_inv_r in Hall. contradiction.
  - destruct Hr1 as (news & Hnews & Hall & _). simpl in Hnews. subst news.
    pose proof (file_informations_mono _ _ _ _ (proj1 Hg) Hfi) as Hfi1.
    rewrite (update_wellformed _ _ _ _ _ Hfi1) in Hcase.
    injection Hcase as <- <-. exists (x :: rest). simpl. split_and!.
    + apply file_informations_insert with items, Hfi1.
    + rewrite length_app. f_equal. symmetry. apply (Forall2_length _ _ _ Hall).
    + eapply Forall2_impl; [exact Hall|]. intros file v.
      apply info_for_insert_list with items.
      eapply file_informations_lookup, Hfi1.
Qed.

(** C10.  A run of [add_file_info_to_job] that returns gives back the
    document it was given (the same object), and every object that was in
    the store is as before, except the list at
    [setup.package.fileInformations], which is the old list followed by one
    new entry per file; the only mutations are appends to that list. *)
Theorem assembly_only_appends_in_place
    (w : world) (client : Client) (job job' : value) (files : list string)
    (st st' : state) :
  add_file_info_to_job w client job files st = (Ret job', st') →
  job' = job
  ∧ ∃ news,
      length news = length files
      ∧ (∀ l o, st_heap st !! l = Some o →
                st_heap st' !! l = Some o
                ∨ ∃ items, file_informations (st_heap st) job = Some (l, items)
                           ∧ o = OList items
                           ∧ st_heap st' !! l = Some (OList (items ++ news)))
      ∧ ∃ evs, st_trace st' = st_trace st ++ evs
               ∧ ∀ l v, In (EvAppend l v) evs →
                        In v news
                        ∧ ∃ items, file_informations (st_heap st) job = Some (l, items).
Proof.
  intros Hrun.
  apply add_file_info_phases in Hrun
    as (r1 & st1 & ups & apps & Hup & Ht1 & Ht' & Hu & _ & Hg & Hcase).
  pose proof (upload_files_spec w client _ _ _ _ _ Hup) as (_ & _ & Hr1).
  assert (Hups : ∀ l v, ¬ In (EvAppend l v) ups).
  { intros l v Hin. rewrite Forall_forall in Hu. apply list_elem_of_In in Hin.
    apply (Hu _ Hin). }
  destruct r1 as [[|x rest]|c|e]; try (destruct Hcase; discriminate).
  - destruct Hcase as [[= <-] ->]. split; [reflexivity|].
    destruct Hr1 as (news & Hnews & Hall & _).
    destruct news; [|discriminate]. apply Forall2_nil_inv_r in Hall. subst files.
    exists []. split; [reflexivity|]. split.
    + intros l o Hl. left. eapply lookup_weaken; [exact Hl | apply Hg].
    + exists ups. split; [exact Ht1|]. intros l v Hin. destruct (Hups _ _ Hin).
  - destruct Hr1 as (news & Hnews & Hall & _). simpl in Hnews. subst news.
    destruct (file_informations (st_heap st) job) as [[l items]|] eqn:Hfi.
    2:{ apply (file_informations_grown_none _ _ _ Hg) in Hfi.
        rewrite (update_malformed _ _ _ _ Hfi) in Hcase. discriminate. }
    pose proof (file_informations_mono _ _ _ _ (proj1 Hg) Hfi) as Hfi1.
    rewrite (update_wellformed _ _ _ _ _ Hfi1) in Hcase.
    injection Hcase as <- <-. split; [reflexivity|].
    exists (x :: rest). split; [symmetry; apply (Forall2_length _ _ _ Hall)|]. split.
    + intros l0 o Hl. simpl.
      pose proof (lookup_weaken _ _ _ _ Hl (proj1 Hg)) as Hl1.
      destruct (decide (l0 = l)) as [->|Hne].
      * right. exists items. rewrite lookup_insert_eq.
        pose proof (file_informations_lookup _ _ _ _ Hfi) as Hl0.
        split; [reflexivity|]. split; [congruence | reflexivity].
      * left. rewrite lookup_insert_ne by congruence. exact Hl1.
    + exists (ups ++ map (EvAppend l) (x :: rest)). simpl. split.
      * rewrite Ht1, <- app_assoc. reflexivity.
      * intros l0 v Hin. apply in_app_or in Hin as [Hin|Hin].
        { destruct (Hups _ _ Hin). }
        change (In (EvAppend l0 v) (map (EvAppend l) (x :: rest))) in Hin.
        apply in_map_iff in Hin as (v' & [= -> ->] & Hv). eauto.
Qed.

Section FailureFacts.

Variable w : world.
Variable client : Client.

Lemma not_all_ok files :
  Forall (fun f => upload_ok w client f = true) files →
  Exists (fun f => upload_ok w client f = false) files → False.
Proof.
  intros Hall Hex. induction Hex as [f rest Hf|f rest _ IH];
    apply Forall_cons in Hall as [Hok Hrest]; [congruence | auto].
Qed.

Lemma puts_of_uploads st st1 ups files :
  st_trace st1 = st_trace st ++ ups →
  uploads st1 = uploads st ++ files →
  omap (fun e => match e with EvPut _ p => Some p | _ => None end) ups = files.
Proof.
  intros Ht Hu. rewrite (uploads_log _ _ _ Ht) in Hu.
  apply app_inv_head in Hu. exact Hu.
Qed.

(** A run in which the upload loop does not return ends where the loop
    ends. *)
Lemma failed_uploads_stop job files st r st' :
  add_file_info_to_job w client job files st = (r, st') →
  Exists (fun f => upload_ok w client f = false) files →
  (∀ v, r ≠ Ret v)
  ∧ grown (st_heap st) (st_heap st')
  ∧ ∃ evs, st_trace st' = st_trace st ++ evs ∧ Forall (upload_event w client) evs.
Proof.
  intros Hrun Hex.
  apply add_file_info_phases in Hrun
    as (r1 & st1 & ups & apps & Hup & Ht1 & Ht' & Hu & _ & Hg & Hcase).
  pose proof (upload_files_spec w client _ _ _ _ _ Hup) as (_ & _ & Hr1).
  destruct r1 as [infos|c|e].
  - destruct Hr1 as (news & _ & _ & Hall & _). destruct (not_all_ok _ Hall Hex).
  - destruct Hcase as [-> ->]. split; [discriminate|]. eauto.
  - destruct Hcase as [-> ->]. split; [discriminate|]. eauto.
Qed.

(** A run on a document whose path resolves, with uploads that all go
    through, returns the document with the entries appended. *)
Lemma add_file_info_returns job files st l items :
  Forall (fun f => upload_ok w client f = true) files →
  file_informations (st_heap st) job = Some (l, items) →
  ∃ st' news,
    add_file_info_to_job w client job files st = (Ret job, st')
    ∧ file_informations (st_heap st') job = Some (l, items ++ news)
    ∧ Forall2 (info_for w client (st_heap st')) files news.
Proof.
  intros Hall Hfi.
  destruct (upload_files_total w client files [] st Hall) as (infos & st1 & Hup).
  pose proof (upload_files_spec w client _ _ _ _ _ Hup)
    as (Hg & _ & (news & Hnews & Hinfo & _)).
  simpl in Hnews. subst news.
  pose proof (file_informations_mono _ _ _ _ (proj1 Hg) Hfi) as Hfi1.
  unfold add_file_info_to_job, bind. rewrite Hup.
  destruct infos as [|x rest].
  - exists st1, []. rewrite app_nil_r. auto.
  - rewrite (update_wellformed _ _ _ _ _ Hfi1). eexists _, (x :: rest).
    split; [reflexivity|]. simpl. split.
    + apply file_informations_insert with items, Hfi1.
    + eapply Forall2_impl; [exact Hinfo|]. intros file v.
      apply info_for_insert_list with items.
      eapply file_informations_lookup, Hfi1.
Qed.

End FailureFacts.

(** C7.  The events of a run of [add_file_info_to_job] are those of an
    upload phase followed by those of a merge phase: no append stands before
    a request, and the merge phase begins only after every file has been
    uploaded.  When some file is not there, is over the size limit, or its
    request is not answered, the run does not return, no append has been
    made, and every object of the store (so the document, as the encoder
    sees it) is as it was.  The status of an answer is not looked at: when
    every file is there, within the limit, and its request is answered, with
    whatever status, a document that has the list at
    [setup.package.fileInformations] is returned with one entry per file
    appended, whose [url] is the text of the answer without its end
    quotes. *)
Theorem uploads_precede_appends
    (w : world) (client : Client) (job : value) (paths : list string)
    (st : state) (r : outcome value) (st' : state) :
  add_file_info_to_job w client job paths st = (r, st') →
  (∃ ups apps,
     st_trace st' = st_trace st ++ ups ++ apps
     ∧ Forall (fun e => is_append e = false) ups
     ∧ Forall (fun e => is_put e = false) apps
     ∧ (apps ≠ [] →
        omap (fun e => match e with EvPut _ p => Some p | _ => None end) ups = paths
        ∧ Forall (fun f => upload_ok w client f = true) paths))
  ∧ (Exists (fun f => upload_ok w client f = false) paths →
     (∀ v, r ≠ Ret v)
     ∧ (∀ l o, st_heap st !! l = Some o → st_heap st' !! l = Some o)
     ∧ (∀ j, snapshot (st_heap st) job = Some j → snapshot (st_heap st') job = Some j)
     ∧ ∃ evs, st_trace st' = st_trace st ++ evs
              ∧ Forall (fun e => is_append e = false) evs)
  ∧ (Forall (fun f => ∃ d resp, files w f = Some d
                                ∧ st_size d <= 4194304
                                ∧ http_put w (upload_url w client) f = Some resp) paths →
     Forall (fun f => upload_ok w client f = true) paths
     ∧ ∀ l items,
         file_informations (st_heap st) job = Some (l, items) →
         r = Ret job
         ∧ ∃ news, file_informations (st_heap st') job = Some (l, items ++ news)
                   ∧ Forall2 (info_for w client (st_heap st')) paths news).
Proof.
  intros Hrun. split; [|split].
  - apply add_file_info_phases in Hrun
      as (r1 & st1 & ups & apps & Hup & Ht1 & Ht' & Hu & Hm & Hg & Hcase).
    pose proof (upload_files_spec w client _ _ _ _ _ Hup) as (_ & _ & Hr1).
    exists ups, apps. split_and!.
    + rewrite Ht', Ht1, app_assoc. reflexivity.
    + eapply Forall_impl; [exact Hu|]. apply upload_event_not_append.
    + eapply Forall_impl; [exact Hm|]. apply merge_event_not_put.
    + intros Happs. destruct r1 as [infos|c|e].
      * destruct Hr1 as (news & _ & _ & Hall & Hups). split; [|exact Hall].
        eapply puts_of_uploads; eauto.
      * destruct Hcase as [_ ->]. destruct Happs.
        apply (app_inv_head (st_trace st1)). rewrite app_nil_r. symmetry. exact Ht'.
      * destruct Hcase as [_ ->]. destruct Happs.
        apply (app_inv_head (st_trace st1)). rewrite app_nil_r. symmetry. exact Ht'.
  - intros Hex.
    destruct (failed_uploads_stop w client _ _ _ _ _ Hrun Hex)
      as (Hr & Hg & evs & Ht & Hev).
    split_and!; auto.
    + intros l o Hl. eapply lookup_weaken; [exact Hl | apply Hg].
    + intros j. apply snapshot_mono, Hg.
    + exists evs. split; [exact Ht|].
      eapply Forall_impl; [exact Hev|]. apply upload_event_not_append.
  - intros Hans.
    assert (Hall : Forall (fun f => upload_ok w client f = true) paths).
    { eapply Forall_impl; [exact Hans|]. simpl.
      intros f (d & resp & Hd & Hsize & Hresp). unfold upload_ok. rewrite Hd, Hresp.
      replace (st_size d >? MAX_FILE_SIZE) with false
        by (symmetry; rewrite Z.gtb_ltb; apply Z.ltb_ge; unfold MAX_FILE_SIZE; lia).
      reflexivity. }
    split; [exact Hall|]. intros l items Hfi.
    destruct (add_file_info_returns w client _ _ _ _ _ Hall Hfi)
      as (st2 & news & Hrun2 & Hfi2 & Hinfo).
    rewrite Hrun in Hrun2. injection Hrun2 as -> ->. eauto.
Qed.

(** C2 (as amended).  On a document without a list at
    [setup.package.fileInformations] and for a non-empty file list, the run
    never returns a document, makes no append, and leaves every object of
    the store (so the document, as the encoder sees it) as it was.  When the
    upload of every file goes through, all files are uploaded first, then
    the message about the missing structure is printed and the run exits
    with status 1: the message is the last event, no request follows it. *)
Theorem malformed_template_aborts
    (w : world) (client : Client) (job : value) (files : list string) (st : state) :
  files ≠ [] →
  file_informations (st_heap st) job = None →
  ∃ r st',
    add_file_info_to_job w client job files st = (r, st')
    ∧ (∀ v, r ≠ Ret v)
    ∧ (∀ l o, st_heap st !! l = Some o → st_heap st' !! l = Some o)
    ∧ (∀ j, snapshot (st_heap st) job = Some j → snapshot (st_heap st') job = Some j)
    ∧ (∃ evs, st_trace st' = st_trace st ++ evs
              ∧ Forall (fun e => is_append e = false) evs)
    ∧ (Forall (fun f => upload_ok w client f = true) files →
       r = Exit 1
       ∧ uploads st' = uploads st ++ files
       ∧ ∃ ups, st_trace st' = st_trace st ++ ups ++ [EvPrint missing_structure_message]
                ∧ Forall (upload_event w client) ups).
Proof.
  intros Hne Hfi.
  destruct (add_file_info_to_job w client job files st) as [r st'] eqn:Hrun.
  exists r, st'. split; [reflexivity|].
  apply add_file_info_phases in Hrun
    as (r1 & st1 & ups & apps & Hup & Ht1 & Ht' & Hu & Hm & Hg & Hcase).
  pose proof (upload_files_spec w client _ _ _ _ _ Hup) as (_ & _ & Hr1).
  pose proof (file_informations_grown_none _ _ _ Hg Hfi) as Hfi1.
  assert (Hquiet : Forall (fun e => is_append e = false) ups)
    by (eapply Forall_impl; [exact Hu|]; apply upload_event_not_append).
  destruct r1 as [[|x rest]|c|e].
  - destruct Hr1 as (news & Hnews & Hall & _).
    destruct news; [|discriminate]. apply Forall2_nil_inv_r in Hall. contradiction.
  - rewrite (update_malformed _ _ _ _ Hfi1) in Hcase. injection Hcase as <- <-.
    simpl. split_and!.
    + discriminate.
    + intros l o Hl. eapply lookup_weaken; [exact Hl | apply Hg].
    + intros j. apply snapshot_mono, Hg.
    + exists (ups ++ [EvPrint missing_structure_message]). split.
      * rewrite Ht1, <- app_assoc. reflexivity.
      * apply Forall_app. split; [exact Hquiet | repeat constructor].
    + intros _. split; [reflexivity|].
      destruct Hr1 as (news & _ & _ & _ & Hups). split.
      * unfold uploads in *. simpl. rewrite omap_app. simpl. rewrite app_nil_r.
        exact Hups.
      * exists ups. split; [|exact Hu]. rewrite Ht1, <- app_assoc. reflexivity.
  - destruct Hcase as [-> ->]. split_and!.
    + discriminate.
    + intros l o Hl. eapply lookup_weaken; [exact Hl | apply Hg].
    + intros j. apply snapshot_mono, Hg.
    + eauto.
    + intros Hall. destruct (not_all_ok w client _ Hall Hr1).
  - destruct Hcase as [-> ->]. split_and!.
    + discriminate.
    + intros l o Hl. eapply lookup_weaken; [exact Hl | apply Hg].
    + intros j. apply snapshot_mono, Hg.
    + eauto.
    + intros Hall. destruct (not_all_ok w client _ Hall Hr1).
Qed.

(** ** [submit] with an output path *)

Section SubmitFacts.

Variable w : world.
Variable client : Client.

Lemma add_file_info_quiet job files st r st' :
  add_file_info_to_job w client job files st = (r, st') →
  ∃ evs, st_trace st' = st_trace st ++ evs
         ∧ Forall (fun e => is_post e = false ∧ is_write e = false) evs.
Proof.
  intros Hrun.
  apply add_file_info_phases in Hrun
    as (r1 & st1 & ups & apps & _ & Ht1 & Ht' & Hu & Hm & _ & _).
  exists (ups ++ apps). split.
  - rewrite Ht', Ht1, app_assoc. reflexivity.
  - apply Forall_app. split.
    + eapply Forall_impl; [exact Hu|]. apply upload_event_quiet.
    + eapply Forall_impl; [exact Hm|]. apply merge_event_quiet.
Qed.

(** A file opened by [open(path)] is opened for reading: dumping into it
    raises, whatever the document. *)
Lemma dump_into_read_handle job path st :
  ∃ e, bind (py_open w path ModeR) (fun out_file => json_dump w job out_file) st
       = (Raise e, st).
Proof.
  unfold bind, py_open, json_dump, file_write.
  destruct (files w path) as [f|]; simpl; eauto.
  destruct (snapshot (st_heap st) job); eauto.
Qed.

(** With an output path, [submit] never gets as far as the request: it ends
    by an exception or an exit, nothing has been written and nothing has
    been posted. *)
Lemma submit_output_path_blocks job_path path paths st r st' :
  path ≠ EmptyString →
  submit w client job_path (Some path) paths st = (r, st') →
  r ≠ Ret tt
  ∧ ∃ evs, st_trace st' = st_trace st ++ evs
           ∧ Forall (fun e => is_post e = false ∧ is_write e = false) evs.
Proof.
  intros Hpath. unfold submit. unfold bind at 1. unfold py_open at 1.
  destruct (files w job_path) as [f|] eqn:Hf.
  2:{ intros [= <- <-]. split; [discriminate|]. exists []. rewrite app_nil_r. auto. }
  unfold ret at 1. unfold bind at 1. unfold json_load. simpl. rewrite Hf.
  destruct (json_loads w (contents f)) as [j|].
  2:{ intros [= <- <-]. split; [discriminate|]. exists []. rewrite app_nil_r. auto. }
  destruct (build j (st_heap st)) as [job h0] eqn:Hb.
  unfold bind at 1.
  destruct (add_file_info_to_job w client job paths
              {| st_heap := h0; st_trace := st_trace st |}) as [r2 st2] eqn:Hrun.
  apply add_file_info_quiet in Hrun as (evs & Ht & Hq). simpl in Ht.
  destruct r2 as [job2|c|e].
  - unfold bind at 1. unfold truthy.
    destruct path as [|a path]; [congruence|].
    destruct (dump_into_read_handle job2 (String a path) st2) as [e He].
    unfold py_open in He. rewrite He.
    intros [= <- <-]. split; [discriminate|]. eauto.
  - intros [= <- <-]. split; [discriminate|]. eauto.
  - intros [= <- <-]. split; [discriminate|]. eauto.
Qed.

End SubmitFacts.

(** C8 (the code at a failing input).  [submit] with the template
    [job.json], the file [report.txt] and an output path: when the output
    file exists the run ends in [UnsupportedOperation], when it does not in
    [FileNotFoundError]; in both cases nothing has been written and the job
    has not been posted.  Without an output path the same run posts the
    assembled document. *)
Theorem submit_with_output_path_raises :
  let run out :=
    submit Fixtures.demo Fixtures.client "job.json" out ["report.txt"]
      Scenario.empty_state in
  (fst (run (Some "out.json")) = Raise UnsupportedOperation
   ∧ Forall (fun e => is_post e = false ∧ is_write e = false)
       (st_trace (snd (run (Some "out.json")))))
  ∧ (fst (run (Some "new.json")) = Raise FileNotFoundError
     ∧ Forall (fun e => is_post e = false ∧ is_write e = false)
         (st_trace (snd (run (Some "new.json")))))
  ∧ (fst (run None) = Ret tt
     ∧ In (EvPost (_url Fixtures.demo Fixtures.client "api/accounts/" "/jobs")
             (Some Scenario.expected))
         (st_trace (snd (run None)))).
Proof.
  cbv zeta. split_and!.
  - vm_compute. reflexivity.
  - vm_compute. repeat constructor.
  - vm_compute. reflexivity.
  - vm_compute. repeat constructor.
  - vm_compute. reflexivity.
  - vm_compute. auto 10.
Qed.

(** ** Counterexamples to the claims as first stated *)

(** C1 as stated fails: for a response text with two quotes at each end,
    the stored [url] is [abc], which is not the text without one quote at
    each end. *)
Lemma strip_removes_every_end_quote_counterexample :
  let run :=
    upload_file_and_generate_file_info Fixtures.demo Fixtures.client "twice.bin"
      Scenario.empty_state in
  ∃ r, http_put Fixtures.demo (upload_url Fixtures.demo Fixtures.client) "twice.bin" = Some r
       ∧ text r = Str.dq +:+ Str.dq +:+ "abc" +:+ Str.dq +:+ Str.dq
       ∧ fst run = Ret (VRef 1%positive)
       ∧ field (st_heap (snd run)) (VRef 1%positive) "url" = Some (VStr "abc")
       ∧ ¬ one_quote_removed_each_end (text r) "abc".
Proof.
  cbv zeta. eexists. split; [reflexivity|]. split; [reflexivity|].
  split; [vm_compute; reflexivity|]. split; [vm_compute; reflexivity|].
  unfold one_quote_removed_each_end. vm_compute. discriminate.
Qed.

(** C2 as stated fails: with a document without the path and a file list
    whose only file is over the size limit, the run exits with the message
    about the size; the message about the missing structure is not printed. *)
Lemma malformed_template_oversized_file_counterexample :
  let job := fst (Scenario.loaded (JObj [])) in
  let st := snd (Scenario.loaded (JObj [])) in
  let run := add_file_info_to_job Fixtures.demo Fixtures.client job ["big.bin"] st in
  file_informations (st_heap st) job = None
  ∧ fst run = Exit 1
  ∧ printed (snd run) = [size_error_message "big.bin" 4194305]
  ∧ ¬ In missing_structure_message (printed (snd run)).
Proof.
  cbv zeta. split_and!; try (vm_compute; reflexivity).
  vm_compute. intros [H|[]]. discriminate H.
Qed.

(** C7 as stated fails: when the service answers the upload of the file
    with status 500 and an error text, the upload has failed, yet the run
    returns the document, one entry has been appended to it, and the [url]
    of that entry is the error text: the document is not as it was. *)
Lemma refused_upload_is_appended_counterexample :
  let job := fst (Scenario.loaded Scenario.template) in
  let st := snd (Scenario.loaded Scenario.template) in
  let run :=
    add_file_info_to_job Fixtures.refusing Fixtures.client job ["report.txt"] st in
  ∃ r, http_put Fixtures.refusing (upload_url Fixtures.refusing Fixtures.client)
         "report.txt" = Some r
       ∧ status_code r = 500
       ∧ text r = "upload failed"
       ∧ fst run = Ret job
       ∧ snapshot (st_heap st) job = Some Scenario.template
       ∧ snapshot (st_heap (snd run)) job
         = Some (JObj [("setup", JObj [("package", JObj [("fileInformations",
                   JArr [JObj [("action", JStr "DownloadOnly");
                               ("name", JStr "report.txt");
                               ("url", JStr "upload failed")]])])])])
       ∧ snapshot (st_heap (snd run)) job ≠ snapshot (st_heap st) job
       ∧ Exists (fun e => is_append e = true) (st_trace (snd run)).
Proof.
  cbv zeta. eexists. split; [reflexivity|]. split; [reflexivity|].
  split; [reflexivity|]. split; [vm_compute; reflexivity|].
  split; [vm_compute; reflexivity|]. split; [vm_compute; reflexivity|].
  split; [vm_compute; discriminate|].
  vm_compute. apply Exists_cons_tl, Exists_cons_tl, Exists_cons_hd. reflexivity.
Qed.

(** ** The theorems at concrete inputs *)

Lemma print_response_falls_back_to_text_witness :
  (json_loads Fixtures.demo "not json" = None
   ∧ print_response Fixtures.demo (Fixtures.ok "u" "not json") Scenario.empty_state
     = (Ret tt, log Scenario.empty_state [EvPrint "not json"]))
  ∧ (json_loads Fixtures.demo "null" = Some JNull
     ∧ print_response Fixtures.demo (Fixtures.ok "u" "null") Scenario.empty_state
       = (Ret tt, log Scenario.empty_state [EvPrint "null"])).
Proof.
  split; (split; [reflexivity|]).
  - apply (proj1 (print_response_falls_back_to_text Fixtures.demo
                    (Fixtures.ok "u" "not json") Scenario.empty_state)).
    reflexivity.
  - apply (proj2 (print_response_falls_back_to_text Fixtures.demo
                    (Fixtures.ok "u" "null") Scenario.empty_state) JNull).
    reflexivity.
Defined.

Lemma oversized_file_aborts_before_upload_witness :
  (files Fixtures.demo "big.bin" = Some {| st_size := 4194305; contents := "(4 MiB + 1)" |}
   ∧ 4194305 > 4194304
   ∧ upload_file_and_generate_file_info Fixtures.demo Fixtures.client "big.bin"
       Scenario.empty_state
     = (Exit 1, log Scenario.empty_state
                  [EvPrint (size_error_message "big.bin" 4194305)])
   ∧ size_error_message "big.bin" 4194305
     = "ERROR: file " +:+ String (ascii_of_nat 34) EmptyString +:+ "big.bin"
       +:+ String (ascii_of_nat 34) EmptyString
       +:+ " has byte size 4194305, which exceeds limit of 4mb")
  ∧ (files Fixtures.demo "limit.bin" = Some {| st_size := 4194304; contents := "(4 MiB)" |}
     ∧ ∃ r st',
         upload_file_and_generate_file_info Fixtures.demo Fixtures.client "limit.bin"
           Scenario.empty_state = (r, st')
         ∧ uploads st' = uploads Scenario.empty_state ++ ["limit.bin"]
         ∧ (∀ c, r ≠ Exit c)
         ∧ (is_Some (http_put Fixtures.demo (upload_url Fixtures.demo Fixtures.client)
                       "limit.bin") → ∃ l, r = Ret (VRef l))).
Proof.
  split.
  - split; [reflexivity|]. split; [lia|].
    destruct (proj1 (proj2 (oversized_file_aborts_before_upload Fixtures.demo
                              Fixtures.client "big.bin" _ Scenario.empty_state eq_refl)))
      as (Hrun & Hmsg & _); [simpl; lia|].
    split; [exact Hrun | exact Hmsg].
  - split; [reflexivity|].
    apply (proj2 (proj2 (oversized_file_aborts_before_upload Fixtures.demo Fixtures.client
                           "limit.bin" _ Scenario.empty_state eq_refl))).
    reflexivity.
Defined.

Lemma stored_url_is_response_without_end_quotes_witness :
  files Fixtures.demo "limit.bin" = Some {| st_size := 4194304; contents := "(4 MiB)" |}
  ∧ 4194304 <= MAX_FILE_SIZE
  ∧ http_put Fixtures.demo (upload_url Fixtures.demo Fixtures.client) "limit.bin"
    = Some (Fixtures.ok (upload_url Fixtures.demo Fixtures.client)
              (Scenario.quoted "abc123"))
  ∧ ∃ l st',
      upload_file_and_generate_file_info Fixtures.demo Fixtures.client "limit.bin"
        Scenario.empty_state = (Ret (VRef l), st')
      ∧ field (st_heap st') (VRef l) "url" = Some (VStr "abc123").
Proof.
  split; [reflexivity|]. split; [unfold MAX_FILE_SIZE; lia|]. split; [reflexivity|].
  destruct (stored_url_is_response_without_end_quotes Fixtures.demo Fixtures.client
              "limit.bin" _ _ Scenario.empty_state eq_refl
              ltac:(unfold MAX_FILE_SIZE; simpl; lia) eq_refl)
    as (l & st' & u & Hrun & Hfield & _ & _ & _ & _ & _ & Habc & _).
  exists l, st'. split; [exact Hrun|]. rewrite Hfield, (Habc eq_refl). reflexivity.
Defined.

Lemma file_information_has_action_name_url_witness :
  (∃ l st',
     upload_file_and_generate_file_info Fixtures.demo Fixtures.client "report.txt"
       Scenario.empty_state = (Ret (VRef l), st')
     ∧ st_heap st' !! l
       = Some (ODict [("action", VStr "DownloadOnly");
                      ("name", VStr "report.txt");
                      ("url", VStr "https://x/abc")]))
  ∧ path_name "uploads/today/report.txt" = "report.txt"
  ∧ ∃ job' st',
      add_file_info_to_job Fixtures.demo Fixtures.client
        (fst (Scenario.loaded Scenario.template)) ["report.txt"]
        (snd (Scenario.loaded Scenario.template)) = (Ret job', st')
      ∧ snapshot (st_heap st') job' = Some Scenario.expected.
Proof.
  pose proof (file_information_has_action_name_url Fixtures.demo Fixtures.client)
    as (Hentry & Hname & Hscenario).
  split_and!.
  - apply (Hentry "report.txt" _ _ Scenario.empty_state eq_refl
             ltac:(unfold MAX_FILE_SIZE; simpl; lia) eq_refl).
  - apply (proj1 (Hname "uploads/today" "report.txt" eq_refl
                    ltac:(discriminate) ltac:(discriminate))).
  - apply (Hscenario _ _ eq_refl ltac:(unfold MAX_FILE_SIZE; simpl; lia) eq_refl).
    left. reflexivity.
Defined.

Lemma appended_entries_follow_file_order_witness :
  let job := fst (Scenario.loaded Scenario.template) in
  let st := snd (Scenario.loaded Scenario.template) in
  let files := ["report.txt"; "limit.bin"] in
  let st' := snd (add_file_info_to_job Fixtures.demo Fixtures.client job files st) in
  files ≠ []
  ∧ file_informations (st_heap st) job = Some (1%positive, [])
  ∧ add_file_info_to_job Fixtures.demo Fixtures.client job files st = (Ret job, st')
  ∧ ∃ news,
      file_informations (st_heap st') job = Some (1%positive, [] ++ news)
      ∧ length ([] ++ news) = (length (@nil value) + length files)%nat
      ∧ Forall2 (info_for Fixtures.demo Fixtures.client (st_heap st')) files news.
Proof.
  cbv zeta.
  assert (H1 : ["report.txt"; "limit.bin"] ≠ []) by discriminate.
  assert (H2 : file_informations (st_heap (snd (Scenario.loaded Scenario.template)))
                 (fst (Scenario.loaded Scenario.template)) = Some (1%positive, []))
    by (vm_compute; reflexivity).
  assert (H3 : add_file_info_to_job Fixtures.demo Fixtures.client
                 (fst (Scenario.loaded Scenario.template)) ["report.txt"; "limit.bin"]
                 (snd (Scenario.loaded Scenario.template))
               = (Ret (fst (Scenario.loaded Scenario.template)),
                  snd (add_file_info_to_job Fixtures.demo Fixtures.client
                         (fst (Scenario.loaded Scenario.template))
                         ["report.txt"; "limit.bin"]
                         (snd (Scenario.loaded Scenario.template)))))
    by (vm_compute; reflexivity).
  split; [exact H1|]. split; [exact H2|]. split; [exact H3|].
  exact (appended_entries_follow_file_order Fixtures.demo Fixtures.client
           _ _ _ _ _ _ _ H1 H2 H3).
Defined.

Lemma assembly_only_appends_in_place_witness :
  let job := fst (Scenario.loaded Scenario.template) in
  let st := snd (Scenario.loaded Scenario.template) in
  let files := ["report.txt"; "limit.bin"] in
  let st' := snd (add_file_info_to_job Fixtures.demo Fixtures.client job files st) in
  add_file_info_to_job Fixtures.demo Fixtures.client job files st = (Ret job, st')
  ∧ ∃ news,
      length news = length files
      ∧ (∀ l o, st_heap st !! l = Some o →
                st_heap st' !! l = Some o
                ∨ ∃ items, file_informations (st_heap st) job = Some (l, items)
                           ∧ o = OList items
                           ∧ st_heap st' !! l = Some (OList (items ++ news)))
      ∧ ∃ evs, st_trace st' = st_trace st ++ evs
               ∧ ∀ l v, In (EvAppend l v) evs →
                        In v news
                        ∧ ∃ items, file_informations (st_heap st) job = Some (l, items).
Proof.
  cbv zeta.
  assert (H : add_file_info_to_job Fixtures.demo Fixtures.client
                (fst (Scenario.loaded Scenario.template)) ["report.txt"; "limit.bin"]
                (snd (Scenario.loaded Scenario.template))
              = (Ret (fst (Scenario.loaded Scenario.template)),
                 snd (add_file_info_to_job Fixtures.demo Fixtures.client
                        (fst (Scenario.loaded Scenario.template))
                        ["report.txt"; "limit.bin"]
                        (snd (Scenario.loaded Scenario.template)))))
    by (vm_compute; reflexivity).
  split; [exact H|].
  exact (proj2 (assembly_only_appends_in_place Fixtures.demo Fixtures.client
                  _ _ _ _ _ H)).
Defined.

Lemma uploads_precede_appends_witness :
  let job := fst (Scenario.loaded Scenario.template) in
  let st := snd (Scenario.loaded Scenario.template) in
  (let paths := ["report.txt"; "big.bin"] in
   let run := add_file_info_to_job Fixtures.demo Fixtures.client job paths st in
   Exists (fun f => upload_ok Fixtures.demo Fixtures.client f = false) paths
   ∧ fst run = Exit 1
   ∧ uploads (snd run) = ["report.txt"]
   ∧ (∀ l o, st_heap st !! l = Some o → st_heap (snd run) !! l = Some o)
   ∧ (∀ j, snapshot (st_heap st) job = Some j → snapshot (st_heap (snd run)) job = Some j)
   ∧ ∃ evs, st_trace (snd run) = st_trace st ++ evs
            ∧ Forall (fun e => is_append e = false) evs)
  ∧ (let run :=
       add_file_info_to_job Fixtures.refusing Fixtures.client job ["report.txt"] st in
     Forall (fun f => ∃ d resp,
                        files Fixtures.refusing f = Some d
                        ∧ st_size d <= 4194304
                        ∧ http_put Fixtures.refusing
                            (upload_url Fixtures.refusing Fixtures.client) f = Some resp)
       ["report.txt"]
     ∧ status_code (Fixtures.refused (upload_url Fixtures.refusing Fixtures.client)) = 500
     ∧ ∃ l, file_informations (st_heap st) job = Some (l, [])
            ∧ fst run = Ret job
            ∧ ∃ news, file_informations (st_heap (snd run)) job = Some (l, [] ++ news)
                      ∧ Forall2 (info_for Fixtures.refusing Fixtures.client
                                   (st_heap (snd run))) ["report.txt"] news).
Proof.
  cbv zeta. split.
  - assert (Hex : Exists (fun f => upload_ok Fixtures.demo Fixtures.client f = false)
                    ["report.txt"; "big.bin"])
      by (apply Exists_cons_tl, Exists_cons_hd; reflexivity).
    split; [exact Hex|]. split; [vm_compute; reflexivity|].
    split; [vm_compute; reflexivity|].
    exact (proj2 (proj1 (proj2 (uploads_precede_appends Fixtures.demo Fixtures.client
                                  _ _ _ _ _ (surjective_pairing _))) Hex)).
  - assert (Hans : Forall (fun f => ∃ d resp,
                             files Fixtures.refusing f = Some d
                             ∧ st_size d <= 4194304
                             ∧ http_put Fixtures.refusing
                                 (upload_url Fixtures.refusing Fixtures.client) f
                               = Some resp) ["report.txt"]).
    { apply List.Forall_cons; [|apply List.Forall_nil].
      eexists _, _. split; [reflexivity|]. split; [simpl; lia | reflexivity]. }
    split; [exact Hans|]. split; [reflexivity|].
    eexists. split; [vm_compute; reflexivity|].
    apply (proj2 (proj2 (proj2 (uploads_precede_appends Fixtures.refusing Fixtures.client
                                  _ _ _ _ _ (surjective_pairing _))) Hans)).
    vm_compute. reflexivity.
Defined.

Lemma malformed_template_aborts_witness :
  let job := fst (Scenario.loaded (JObj [])) in
  let st := snd (Scenario.loaded (JObj [])) in
  let files := ["report.txt"; "limit.bin"] in
  files ≠ []
  ∧ file_informations (st_heap st) job = None
  ∧ Forall (fun f => upload_ok Fixtures.demo Fixtures.client f = true) files
  ∧ ∃ st',
      add_file_info_to_job Fixtures.demo Fixtures.client job files st = (Exit 1, st')
      ∧ uploads st' = files
      ∧ List.last (printed st') EmptyString = missing_structure_message
      ∧ snapshot (st_heap st') job = Some (JObj []).
Proof.
  cbv zeta.
  assert (H1 : ["report.txt"; "limit.bin"] ≠ []) by discriminate.
  assert (H2 : file_informations (st_heap (snd (Scenario.loaded (JObj []))))
                 (fst (Scenario.loaded (JObj []))) = None)
    by (vm_compute; reflexivity).
  assert (H3 : Forall (fun f => upload_ok Fixtures.demo Fixtures.client f = true)
                 ["report.txt"; "limit.bin"])
    by (repeat constructor).
  split; [exact H1|]. split; [exact H2|]. split; [exact H3|].
  destruct (malformed_template_aborts Fixtures.demo Fixtures.client _ _ _ H1 H2)
    as (r & st' & Hrun & _ & _ & Hsnap & _ & Hok).
  destruct (Hok H3) as (-> & Hups & ups & Ht & _).
  exists st'. split; [exact Hrun|]. split; [exact Hups|]. split.
  - unfold printed. rewrite Ht, app_assoc, omap_app.
    apply (last_last _ missing_structure_message EmptyString).
  - apply Hsnap. vm_compute. reflexivity.
Defined.

(** ** Further properties of the merge and of the assembly *)

Set Warnings "-clear-no-such-hyp".

(** X1.  [update_file_info_in_job] is all or nothing.  When the path
    resolves to a list, every entry is appended to that one list object, in
    order, and the document itself is returned; when it does not, an empty
    list of entries is accepted without any check, and a non-empty one makes
    the run exit with status 1 after the message, with the store as it was.
    No run appends some of the entries only. *)
Theorem update_file_info_in_job_cases (job : value) (file_infos : list value) (st : state) :
  update_file_info_in_job job file_infos st
  = match file_informations (st_heap st) job, file_infos with
    | Some (l, items), _ =>
        (Ret job, {| st_heap := <[l := OList (items ++ file_infos)]> (st_heap st);
                     st_trace := st_trace st ++ map (EvAppend l) file_infos |})
    | None, [] => (Ret job, st)
    | None, _ :: _ => (Exit 1, log st [EvPrint missing_structure_message])
    end.
Proof.
  destruct (file_informations (st_heap st) job) as [[l items]|] eqn:Hfi.
  - apply update_wellformed, Hfi.
  - destruct file_infos as [|x rest]; [reflexivity|]. apply update_malformed, Hfi.
Qed.

(** X2.  Merging entries in two batches is the same as merging them in
    one: same outcome, same store, same trace, also when the merge fails. *)
Theorem update_file_info_in_job_app (job : value) (xs ys : list value) (st : state) :
  update_file_info_in_job job (xs ++ ys) st
  = bind (update_file_info_in_job job xs) (fun job' => update_file_info_in_job job' ys) st.
Proof.
  revert st. induction xs as [|x xs IH]; intros st; [reflexivity|].
  simpl. unfold bind in *.
  match goal with |- context [try_except ?b ?c ?h st] =>
    destruct (try_except b c h st) as [[u|c0|e] st1] end; auto.
Qed.

(** X3.  [add_file_info_to_job] returns a document exactly when the upload
    of every file goes through (the file exists, is within the size limit,
    and the request is answered) and, unless the file list is empty, the
    path [setup.package.fileInformations] of the document resolves to a
    list. *)
Theorem assembly_returns_iff
    (w : world) (client : Client) (job : value) (files : list string) (st : state) :
  (∃ job' st', add_file_info_to_job w client job files st = (Ret job', st'))
  ↔ Forall (fun f => upload_ok w client f = true) files
    ∧ (files = [] ∨ is_Some (file_informations (st_heap st) job)).
Proof.
  split.
  - intros (job' & st' & Hrun).
    apply add_file_info_phases in Hrun
      as (r1 & st1 & ups & apps & Hup & _ & _ & _ & _ & Hg & Hcase).
    pose proof (upload_files_spec w client _ _ _ _ _ Hup) as (_ & _ & Hr1).
    destruct r1 as [infos|c|e]; try (destruct Hcase; discriminate).
    destruct Hr1 as (news & Hnews & Hinfo & Hall & _). simpl in Hnews. subst news.
    split; [exact Hall|].
    destruct infos as [|x rest].
    + left. apply Forall2_nil_inv_r in Hinfo. exact Hinfo.
    + right. destruct (file_informations (st_heap st) job) eqn:Hfi; [eauto|].
      apply (file_informations_grown_none _ _ _ Hg) in Hfi.
      rewrite (update_malformed _ _ _ _ Hfi) in Hcase. discriminate.
  - intros [Hall [-> | [[l items] Hfi]]].
    + exists job, st. reflexivity.
    + destruct (add_file_info_returns w client _ _ _ _ _ Hall Hfi) as (st' & news & H & _).
      eauto.
Qed.

Section AssemblyRuns.

Variable w : world.
Variable client : Client.

(** The upload loop exits only through the size check of one of its files. *)
Lemma upload_files_exit paths acc st c st' :
  upload_files w client paths acc st = (Exit c, st') →
  c = 1
  ∧ ∃ evs file f,
      st_trace st' = st_trace st ++ evs ++ [EvPrint (size_error_message file (st_size f))]
      ∧ In file paths ∧ files w file = Some f ∧ st_size f > MAX_FILE_SIZE.
Proof.
  revert acc st. induction paths as [|file rest IH]; intros acc st; simpl.
  - discriminate.
  - unfold bind. rewrite upload_info_run.
    destruct (files w file) as [f|] eqn:Hf; [|discriminate].
    destruct (st_size f >? MAX_FILE_SIZE) eqn:Hsz.
    + intros [= <- <-]. split; [reflexivity|]. exists [], file, f. simpl.
      split_and!; auto. apply Z.gtb_lt in Hsz. lia.
    + destruct (http_put w (upload_url w client) file) as [resp|]; [|discriminate].
      intros Hrest. apply IH in Hrest as (-> & evs & file' & f' & Ht & Hin & Hf' & Hbig).
      split; [reflexivity|]. simpl in Ht.
      exists ([EvPut (upload_url w client) file; EvPrint (hook_line resp)] ++ evs), file', f'.
      split_and!; auto. rewrite Ht, <- !app_assoc. reflexivity.
Qed.

(** The files put to the service are the first files of the list, in the
    order of the list. *)
Lemma upload_files_prefix paths acc st r st' :
  upload_files w client paths acc st = (r, st') →
  ∃ k, uploads st' = uploads st ++ take k paths
       ∧ (∀ infos, r = Ret infos → k = length paths).
Proof.
  revert acc st. induction paths as [|file rest IH]; intros acc st; simpl.
  - intros [= <- <-]. exists O. rewrite app_nil_r. auto.
  - unfold bind.
    destruct (upload_file_and_generate_file_info w client file st) as [r1 st1] eqn:H1.
    apply upload_info_spec in H1 as (_ & (evs1 & Ht1 & _ & Hu1) & Hr1).
    pose proof (uploads_log _ _ _ Ht1) as Hlog. rewrite Hu1 in Hlog.
    destruct r1 as [v|c|e].
    + destruct Hr1 as (Hok & _). rewrite Hok in Hlog.
      intros Hrest. apply IH in Hrest as (k & Hk & Hret).
      exists (S k). simpl. rewrite Hk, Hlog, <- app_assoc. split; [reflexivity|].
      intros infos Hr. f_equal. eauto.
    + intros [= <- <-]. rewrite Hr1 in Hlog. exists O. split; [exact Hlog | discriminate].
    + intros [= <- <-]. rewrite Hr1 in Hlog.
      destruct e; try (exists O; split; [exact Hlog | discriminate]).
      exists 1%nat. simpl. rewrite take_0. split; [exact Hlog | discriminate].
Qed.

Lemma merge_events_no_put apps :
  Forall merge_event apps →
  omap (fun e => match e with EvPut _ p => Some p | _ => None end) apps = [].
Proof.
  induction 1 as [|e apps He _ IH]; [reflexivity|].
  destruct e; simpl in *; try contradiction; exact IH.
Qed.

(** Every entry of the upload loop is a new object of its own. *)
Lemma upload_files_fresh paths acc st infos st' :
  upload_files w client paths acc st = (Ret infos, st') →
  ∃ ls, infos = acc ++ (VRef <$> ls)
        ∧ length ls = length paths
        ∧ NoDup ls
        ∧ Forall (fun l => st_heap st !! l = None) ls
        ∧ dom (st_heap st') = dom (st_heap st) ∪ list_to_set ls.
Proof.
  revert acc st. induction paths as [|file rest IH]; intros acc st; simpl.
  - intros [= <- <-]. exists []. simpl. rewrite app_nil_r.
    split_and!; auto; [constructor | set_solver].
  - unfold bind. rewrite upload_info_run.
    destruct (files w file) as [f|]; [|discriminate].
    destruct (st_size f >? MAX_FILE_SIZE); [discriminate|].
    destruct (http_put w (upload_url w client) file) as [resp|]; [|discriminate].
    cbv zeta. intros Hrest.
    apply IH in Hrest as (ls & -> & Hlen & Hnd & Hfresh & Hdom). simpl in *.
    set (l := fresh (dom (st_heap st))) in *.
    assert (Hl : st_heap st !! l = None) by (apply not_elem_of_dom, is_fresh).
    exists (l :: ls). simpl. rewrite <- app_assoc. split_and!; auto.
    + constructor; [|exact Hnd]. intros Hin.
      rewrite Forall_forall in Hfresh. specialize (Hfresh _ Hin).
      rewrite lookup_insert_eq in Hfresh. discriminate.
    + constructor; [exact Hl|].
      eapply Forall_impl; [exact Hfresh|]. intros l' Hl'. simpl in Hl'.
      destruct (decide (l' = l)) as [->|Hne]; [exact Hl|].
      rewrite lookup_insert_ne in Hl' by congruence. exact Hl'.
    + rewrite Hdom, dom_insert_L. set_solver.
Qed.

(** What a returning run says about its input. *)
Lemma add_file_info_ret_inv job paths st job' st' :
  add_file_info_to_job w client job paths st = (Ret job', st') →
  job' = job
  ∧ Forall (fun f => upload_ok w client f = true) paths
  ∧ ∀ l items, file_informations (st_heap st) job = Some (l, items) →
               ∃ news, file_informations (st_heap st') job = Some (l, items ++ news)
                       ∧ length news = length paths.
Proof.
  intros Hrun.
  apply add_file_info_phases in Hrun
    as (r1 & st1 & ups & apps & Hup & _ & _ & _ & _ & Hg & Hcase).
  pose proof (upload_files_spec w client _ _ _ _ _ Hup) as (_ & _ & Hr1).
  destruct r1 as [infos|c|e]; try (destruct Hcase; discriminate).
  destruct Hr1 as (news & Hnews & Hinfo & Hall & _). simpl in Hnews. subst news.
  pose proof (Forall2_length _ _ _ Hinfo) as Hlen.
  destruct infos as [|x rest].
  - destruct Hcase as [[= <-] ->]. split; [reflexivity|]. split; [exact Hall|].
    intros l items Hfi. exists []. rewrite app_nil_r. split; [|auto].
    eapply file_informations_mono; [apply Hg | exact Hfi].
  - destruct (file_informations (st_heap st1) job) as [[l1 items1]|] eqn:Hfi1.
    2:{ rewrite (update_malformed _ _ _ _ Hfi1) in Hcase. discriminate. }
    rewrite (update_wellformed _ _ _ _ _ Hfi1) in Hcase. injection Hcase as <- <-.
    split; [reflexivity|]. split; [exact Hall|].
    intros l items Hfi.
    pose proof (file_informations_mono _ _ _ _ (proj1 Hg) Hfi) as Hfi'.
    rewrite Hfi1 in Hfi'. injection Hfi' as -> ->.
    exists (x :: rest). split; [|auto]. simpl.
    apply file_informations_insert with items, Hfi1.
Qed.

End AssemblyRuns.

(** X4.  When [add_file_info_to_job] ends by [exit], the status is 1 and
    the last thing printed is the reason: the message about the missing
    structure (the path does not resolve, and every upload went through), or
    the size message of a listed file that is over the limit. *)
Theorem assembly_exit_is_status_one_with_message
    (w : world) (client : Client) (job : value) (paths : list string)
    (st : state) (c : Z) (st' : state) :
  add_file_info_to_job w client job paths st = (Exit c, st') →
  c = 1
  ∧ ∃ evs line,
      st_trace st' = st_trace st ++ evs ++ [EvPrint line]
      ∧ ((line = missing_structure_message
          ∧ file_informations (st_heap st) job = None
          ∧ Forall (fun f => upload_ok w client f = true) paths)
         ∨ ∃ file f, In file paths ∧ files w file = Some f
                     ∧ st_size f > MAX_FILE_SIZE
                     ∧ line = size_error_message file (st_size f)).
Proof.
  intros Hrun.
  apply add_file_info_phases in Hrun
    as (r1 & st1 & ups & apps & Hup & Ht1 & _ & _ & _ & Hg & Hcase).
  pose proof (upload_files_spec w client _ _ _ _ _ Hup) as (_ & _ & Hr1).
  destruct r1 as [[|x rest]|c1|e]; try (destruct Hcase; discriminate).
  - destruct Hr1 as (news & _ & _ & Hall & _).
    destruct (file_informations (st_heap st1) job) as [[l1 items1]|] eqn:Hfi1.
    { rewrite (update_wellformed _ _ _ _ _ Hfi1) in Hcase. discriminate. }
    rewrite (update_malformed _ _ _ _ Hfi1) in Hcase. injection Hcase as <- <-.
    split; [reflexivity|]. exists ups, missing_structure_message. split.
    + simpl. rewrite Ht1, <- app_assoc. reflexivity.
    + left. split_and!; auto.
      destruct (file_informations (st_heap st) job) as [p|] eqn:Hfi; [|reflexivity].
      rewrite (file_informations_mono _ _ _ _ (proj1 Hg) Hfi) in Hfi1. discriminate.
  - destruct Hcase as [[= <-] ->].
    apply upload_files_exit in Hup as (-> & evs & file & f & Ht & Hin & Hf & Hbig).
    split; [reflexivity|]. exists evs, (size_error_message file (st_size f)).
    split; [exact Ht|]. right. exists file, f. auto.
Qed.

(** X5.  Whatever the outcome, the files put to the service by
    [add_file_info_to_job] are the first [k] files of the list, each once
    and in the order of the list, every one to the address of the Files API;
    a run that returns has put them all. *)
Theorem uploads_are_a_prefix_of_the_file_list
    (w : world) (client : Client) (job : value) (paths : list string)
    (st : state) (r : outcome value) (st' : state) :
  add_file_info_to_job w client job paths st = (r, st') →
  ∃ k evs,
    uploads st' = uploads st ++ take k paths
    ∧ (∀ v, r = Ret v → k = length paths)
    ∧ st_trace st' = st_trace st ++ evs
    ∧ ∀ u p, In (EvPut u p) evs → u = upload_url w client.
Proof.
  intros Hrun.
  apply add_file_info_phases in Hrun
    as (r1 & st1 & ups & apps & Hup & Ht1 & Ht' & Hu & Hm & _ & Hcase).
  destruct (upload_files_prefix w client _ _ _ _ _ Hup) as (k & Hk & Hret).
  exists k, (ups ++ apps). split_and!.
  - rewrite (uploads_log _ _ _ Ht'), (merge_events_no_put _ Hm), app_nil_r. exact Hk.
  - intros v ->. destruct r1 as [[|x rest]|c|e]; try (destruct Hcase; discriminate);
      eapply Hret; reflexivity.
  - rewrite Ht', Ht1, app_assoc. reflexivity.
  - intros u p Hin. apply in_app_or in Hin as [Hin|Hin].
    + rewrite Forall_forall in Hu. apply list_elem_of_In, Hu in Hin. apply Hin.
    + rewrite Forall_forall in Hm. apply list_elem_of_In, Hm in Hin. destruct Hin.
Qed.

(** X6.  A run of [add_file_info_to_job] that returns has created exactly
    one new object per file: the new entries are references to pairwise
    different objects, none of which was in the store before, the store has
    these objects more and no others, and the list of the document ends with
    these references in order. *)
Theorem entries_are_new_objects_one_per_file
    (w : world) (client : Client) (job job' : value) (paths : list string)
    (st st' : state) :
  add_file_info_to_job w client job paths st = (Ret job', st') →
  ∃ ls,
    length ls = length paths
    ∧ NoDup ls
    ∧ Forall (fun l => st_heap st !! l = None) ls
    ∧ dom (st_heap st') = dom (st_heap st) ∪ list_to_set ls
    ∧ size (st_heap st') = (size (st_heap st) + length paths)%nat
    ∧ ∀ l items, file_informations (st_heap st) job = Some (l, items) →
                 file_informations (st_heap st') job' = Some (l, items ++ (VRef <$> ls)).
Proof.
  intros Hrun.
  apply add_file_info_phases in Hrun
    as (r1 & st1 & ups & apps & Hup & _ & _ & _ & _ & Hg & Hcase).
  destruct r1 as [infos|c|e]; try (destruct Hcase; discriminate).
  apply upload_files_fresh in Hup as (ls & Hinfos & Hlen & Hnd & Hfresh & Hdom).
  simpl in Hinfos. subst infos.
  assert (Hsize : ∀ h : heap, dom h = dom (st_heap st) ∪ list_to_set ls →
                              size h = (size (st_heap st) + length paths)%nat).
  { intros h Hh. rewrite <- !size_dom, Hh, size_union, size_list_to_set, Hlen by
      (try exact Hnd; intros l Hl1 Hl2; apply elem_of_list_to_set in Hl2;
       rewrite Forall_forall in Hfresh; apply Hfresh in Hl2;
       apply elem_of_dom in Hl1 as [o Ho]; congruence).
    reflexivity. }
  exists ls. destruct ls as [|l0 ls'].
  - destruct Hcase as [[= <-] ->]. split_and!; auto.
    intros l items Hfi. simpl. rewrite app_nil_r.
    eapply file_informations_mono; [apply Hg | exact Hfi].
  - assert (Hmerge : update_file_info_in_job job (VRef l0 :: (VRef <$> ls')) st1
                     = (Ret job', st')) by exact Hcase.
    clear Hcase. rename Hmerge into Hcase.
    destruct (file_informations (st_heap st1) job) as [[l1 items1]|] eqn:Hfi1.
    2:{ rewrite (update_malformed _ _ _ _ Hfi1) in Hcase. discriminate. }
    rewrite (update_wellformed _ _ _ _ _ Hfi1) in Hcase. injection Hcase as <- <-.
    simpl st_heap.
    assert (Hdom' : dom (<[l1 := OList (items1 ++ VRef l0 :: (VRef <$> ls'))]> (st_heap st1))
                    = dom (st_heap st) ∪ list_to_set (l0 :: ls')).
    { rewrite dom_insert_L, Hdom.
      pose proof (file_informations_lookup _ _ _ _ Hfi1) as Hl1.
      apply (elem_of_dom_2 (D:=gset loc)) in Hl1. rewrite Hdom in Hl1. set_solver. }
    split_and!; auto.
    intros l items Hfi.
    pose proof (file_informations_mono _ _ _ _ (proj1 Hg) Hfi) as Hfi'.
    rewrite Hfi1 in Hfi'. injection Hfi' as -> ->.
    apply file_informations_insert with items, Hfi1.
Qed.

(** X7.  [add_file_info_to_job] is not idempotent: when a run on a document
    whose path resolves has returned, a second run with the same files (and
    a service that answers as before) returns too and appends the entries
    once more, so that the list has grown by twice the number of files. *)
Theorem second_run_appends_again
    (w : world) (client : Client) (job job1 : value) (paths : list string)
    (st st1 : state) (l : loc) (items : list value) :
  file_informations (st_heap st) job = Some (l, items) →
  add_file_info_to_job w client job paths st = (Ret job1, st1) →
  ∃ st2 news1 news2,
    add_file_info_to_job w client job1 paths st1 = (Ret job1, st2)
    ∧ file_informations (st_heap st1) job1 = Some (l, items ++ news1)
    ∧ file_informations (st_heap st2) job1 = Some (l, items ++ news1 ++ news2)
    ∧ length news1 = length paths
    ∧ length news2 = length paths.
Proof.
  intros Hfi Hrun.
  apply add_file_info_ret_inv in Hrun as (-> & Hall & Hlist).
  destruct (Hlist _ _ Hfi) as (news1 & Hfi1 & Hlen1).
  destruct (add_file_info_returns w client _ _ _ _ _ Hall Hfi1)
    as (st2 & news2 & Hrun2 & Hfi2 & Hinfo2).
  exists st2, news1, news2. rewrite <- app_assoc in Hfi2. split_and!; auto.
  symmetry. apply (Forall2_length _ _ _ Hinfo2).
Qed.

(** ** The name of a path *)

Section NameFacts.

Lemma split_parts_no_sep sep s :
  Forall (fun x => Str.mem_char sep x = false) (Str.split sep s).
Proof.
  induction s as [|a s IH]; simpl.
  - repeat constructor.
  - destruct (Ascii.eqb a sep) eqn:Ha.
    + constructor; [reflexivity | exact IH].
    + destruct (Str.split sep s) as [|x xs].
      * repeat constructor. simpl. rewrite Ascii.eqb_sym, Ha. reflexivity.
      * apply Forall_cons in IH as [Hx Hxs]. constructor; [|exact Hxs].
        simpl. rewrite Ascii.eqb_sym, Ha. exact Hx.
Qed.

Lemma last_Forall {A} (P : A → Prop) (l : list A) (d : A) :
  Forall P l → P d → P (List.last l d).
Proof.
  intros Hl Hd. induction Hl as [|x l Hx Hl IH]; [exact Hd|].
  simpl. destruct l; [exact Hx | exact IH].
Qed.

Lemma last_cons_Forall {A} (P : A → Prop) (x : A) (l : list A) (d : A) :
  Forall P (x :: l) → P (List.last (x :: l) d).
Proof.
  revert x. induction l as [|y l IH]; intros x Hall.
  - apply Forall_cons in Hall as [Hx _]. exact Hx.
  - apply Forall_cons in Hall as [_ Hl]. apply (IH y Hl).
Qed.

Lemma path_parts_spec file :
  Forall (fun x => Str.mem_char "/" x = false ∧ x ≠ EmptyString ∧ x ≠ ".")
    (path_parts file).
Proof.
  unfold path_parts. apply Forall_forall. intros x Hx.
  apply list_elem_of_filter in Hx as [[H1 H2] Hin].
  pose proof (split_parts_no_sep "/" file) as Hall.
  rewrite Forall_forall in Hall. auto.
Qed.

Lemma path_parts_dropped file name :
  name = EmptyString ∨ name = "." →
  path_parts (file +:+ "/" +:+ name) = path_parts file.
Proof.
  intros Hname. unfold path_parts.
  change ("/" +:+ name) with (String "/" name).
  rewrite split_dir_name by (destruct Hname as [-> | ->]; reflexivity).
  rewrite filter_app, filter_cons_False, filter_nil, app_nil_r; [reflexivity|].
  destruct Hname as [-> | ->]; intros [H1 H2]; congruence.
Qed.

End NameFacts.

(** X8.  The [name] that [Path(file).name] gives to an entry is a single
    component of the path: it contains no slash and is never ['.'], and it
    does not change when a slash or ['/.'] is added at the end of the path.
    It is empty exactly when the path has no component to name. *)
Theorem path_name_is_one_component (file : string) :
  Str.mem_char "/" (path_name file) = false
  ∧ path_name file ≠ "."
  ∧ path_name (file +:+ "/") = path_name file
  ∧ path_name (file +:+ "/.") = path_name file
  ∧ (path_name file = EmptyString ↔ path_parts file = []).
Proof.
  pose proof (path_parts_spec file) as Hparts. unfold path_name. split_and!.
  - apply (last_Forall (fun x => Str.mem_char "/" x = false)); [|reflexivity].
    eapply Forall_impl; [exact Hparts|]. simpl. intros ? (? & ? & ?). assumption.
  - apply (last_Forall (fun x => x ≠ ".")); [|discriminate].
    eapply Forall_impl; [exact Hparts|]. simpl. intros ? (? & ? & ?). assumption.
  - exact (f_equal (fun p => List.last p EmptyString)
             (path_parts_dropped file EmptyString (or_introl eq_refl))).
  - exact (f_equal (fun p => List.last p EmptyString)
             (path_parts_dropped file "." (or_intror eq_refl))).
  - split; [|intros ->; reflexivity].
    intros Hlast. destruct (path_parts file) as [|x l] eqn:Hp; [reflexivity|].
    exfalso.
    assert (Hne : List.last (x :: l) EmptyString ≠ EmptyString).
    { apply (last_cons_Forall (fun y => y ≠ EmptyString)).
      eapply Forall_impl; [exact Hparts|]. simpl. intros ? (? & ? & ?). assumption. }
    contradiction.
Qed.

(** ** The commands *)

Section CommandFacts.

Variable w : world.

(** [print_response] always returns, having printed one line. *)
Lemma print_response_run r st :
  print_response w r st = (Ret tt, log st [EvPrint (response_body w r)]).
Proof.
  unfold print_response, try_except, bind, response_json, response_body.
  destruct (json_loads w (text r)); reflexivity.
Qed.

Lemma query_run (http_get : string → option response) url st :
  bind (session_get http_get url) (print_response w) st
  = match http_get url with
    | Some r => (Ret tt, log st [EvPrint (hook_line r); EvPrint (response_body w r)])
    | None => (Raise ConnectionError, st)
    end.
Proof.
  unfold bind, session_get. destruct (http_get url) as [r|]; [|reflexivity].
  simpl. rewrite print_response_run. unfold log. simpl. rewrite <- app_assoc. reflexivity.
Qed.

End CommandFacts.

(** X9.  The upload command puts a file of any size to the Files API: the
    size is never looked at, so a file over the 4 MiB limit of [submit] is
    sent all the same, where [upload_file_and_generate_file_info] sends
    nothing.  An answer is printed after its status line; a missing file
    raises before any request. *)
Theorem upload_command_has_no_size_limit
    (w : world) (client : Client) (file : string) (st : state) :
  Cli.upload_file w client file st
  = match files w file with
    | None => (Raise FileNotFoundError, st)
    | Some _ =>
        match http_put w (upload_url w client) file with
        | Some r =>
            (Ret tt, log st [EvPut (upload_url w client) file;
                             EvPrint (hook_line r);
                             EvPrint (response_body w r)])
        | None => (Raise ConnectionError, log st [EvPut (upload_url w client) file])
        end
    end
  ∧ ∀ f, files w file = Some f → st_size f > MAX_FILE_SIZE →
         uploads (snd (Cli.upload_file w client file st)) = uploads st ++ [file]
         ∧ uploads (snd (upload_file_and_generate_file_info w client file st))
           = uploads st.
Proof.
  assert (Hrun : Cli.upload_file w client file st
    = match files w file with
      | None => (Raise FileNotFoundError, st)
      | Some _ =>
          match http_put w (upload_url w client) file with
          | Some r =>
              (Ret tt, log st [EvPut (upload_url w client) file;
                               EvPrint (hook_line r);
                               EvPrint (response_body w r)])
          | None => (Raise ConnectionError, log st [EvPut (upload_url w client) file])
          end
      end).
  { unfold Cli.upload_file, upload_file, py_open, bind.
    destruct (files w file) as [f|]; [|reflexivity]. simpl.
    destruct (http_put w (upload_url w client) file) as [r|]; [|reflexivity].
    simpl. rewrite print_response_run. unfold log. simpl.
    rewrite <- !app_assoc. reflexivity. }
  split; [exact Hrun|].
  intros f Hf Hbig. rewrite Hrun, upload_info_run, Hf.
  replace (st_size f >? MAX_FILE_SIZE) with true by (symmetry; apply Z.gtb_lt; lia).
  unfold uploads.
  destruct (http_put w (upload_url w client) file); simpl;
    rewrite !omap_app; simpl; rewrite ?app_nil_r; auto.
Qed.

(** X10.  Each of the four query commands asks the service once, at its own
    address under [api/accounts/<account>], and prints the status line and
    then the body (the dump of the parsed body, or the raw text when it does
    not parse).  The store is untouched and nothing is put, posted, written
    or appended; when the request raises, nothing is printed. *)
Theorem query_commands_only_print
    (w : world) (http_get : string → option response) (client : Client) (st : state) :
  let answer url :=
    match http_get url with
    | Some r => (Ret tt, log st [EvPrint (hook_line r); EvPrint (response_body w r)])
    | None => (Raise ConnectionError, st)
    end in
  Cli.account_info w http_get client st
  = answer (urljoin w (msrd_url client) ("api/accounts/" +:+ account_id client))
  ∧ Cli.os_images w http_get client st
    = answer (urljoin w (msrd_url client)
                ("api/accounts/" +:+ account_id client +:+ "/osimages"))
  ∧ Cli.job_tiers w http_get client st
    = answer (urljoin w (msrd_url client)
                ("api/accounts/" +:+ account_id client +:+ "/jobtiers"))
  ∧ Cli.jobs w http_get client st
    = answer (urljoin w (msrd_url client)
                ("api/accounts/" +:+ account_id client +:+ "/jobs")).
Proof.
  cbv zeta.
  assert (Hnil : ∀ s, s +:+ EmptyString = s)
    by (induction s as [|a s IH]; simpl; [reflexivity | rewrite IH; reflexivity]).
  unfold Cli.account_info, Cli.os_images, Cli.job_tiers, Cli.jobs,
    account_info, os_images, job_tiers, jobs, _url.
  rewrite !query_run, Hnil. auto.
Qed.

Section SubmitRuns.

Variable w : world.
Variable client : Client.

(** The end of [submit], from the request on. *)
Lemma submit_job_run job st :
  bind (submit_job w client job) (print_response w) st
  = match post_body (st_heap st) job with
    | None => (Raise InvalidJSONError, st)
    | Some body =>
        match http_post w (_url w client "api/accounts/" "/jobs") body with
        | Some r =>
            (Ret tt, log st [EvPost (_url w client "api/accounts/" "/jobs") body;
                             EvPrint (hook_line r);
                             EvPrint (response_body w r)])
        | None =>
            (Raise ConnectionError,
             log st [EvPost (_url w client "api/accounts/" "/jobs") body])
        end
    end.
Proof.
  assert (Hsend : ∀ body,
    bind (session_post w (_url w client "api/accounts/" "/jobs") body)
      (print_response w) st
    = match http_post w (_url w client "api/accounts/" "/jobs") body with
      | Some r =>
          (Ret tt, log st [EvPost (_url w client "api/accounts/" "/jobs") body;
                           EvPrint (hook_line r);
                           EvPrint (response_body w r)])
      | None =>
          (Raise ConnectionError,
           log st [EvPost (_url w client "api/accounts/" "/jobs") body])
      end).
  { intros body. unfold bind, session_post, emit. simpl.
    destruct (http_post w (_url w client "api/accounts/" "/jobs") body) as [r|];
      [|reflexivity].
    simpl. rewrite print_response_run. unfold log. simpl.
    rewrite <- !app_assoc. reflexivity. }
  unfold post_body.
  assert (Hother : job ≠ VNone →
    bind (submit_job w client job) (print_response w) st
    = match match snapshot (st_heap st) job with
            | Some body => if finite_json body then Some (Some body) else None
            | None => None
            end with
      | None => (Raise InvalidJSONError, st)
      | Some body =>
          match http_post w (_url w client "api/accounts/" "/jobs") body with
          | Some r =>
              (Ret tt, log st [EvPost (_url w client "api/accounts/" "/jobs") body;
                               EvPrint (hook_line r);
                               EvPrint (response_body w r)])
          | None =>
              (Raise ConnectionError,
               log st [EvPost (_url w client "api/accounts/" "/jobs") body])
          end
      end).
  { intros Hne.
    destruct (snapshot (st_heap st) job) as [body|] eqn:Hs.
    - destruct (finite_json body) eqn:Hfin.
      + rewrite <- Hsend. unfold bind, submit_job.
        destruct job; try congruence; rewrite Hs, Hfin; reflexivity.
      + unfold bind, submit_job.
        destruct job; try congruence; rewrite Hs, Hfin; reflexivity.
    - unfold bind, submit_job. destruct job; try congruence; rewrite Hs; reflexivity. }
  destruct job; try (apply Hother; discriminate).
  rewrite <- Hsend. reflexivity.
Qed.

(** [submit], after the job file has been read and parsed. *)
Lemma submit_run job_path out paths st f j :
  files w job_path = Some f →
  json_loads w (contents f) = Some j →
  submit w client job_path out paths st
  = let '(job, h) := build j (st_heap st) in
    match add_file_info_to_job w client job paths
            {| st_heap := h; st_trace := st_trace st |} with
    | (Ret job2, st2) =>
        match truthy out with
        | Some path =>
            bind (py_open w path ModeR) (fun out_file => json_dump w job2 out_file) st2
        | None => bind (submit_job w client job2) (print_response w) st2
        end
    | (Exit c, st2) => (Exit c, st2)
    | (Raise e, st2) => (Raise e, st2)
    end.
Proof.
  intros Hf Hj. unfold submit. unfold bind at 1. unfold py_open at 1. rewrite Hf.
  unfold ret at 1. unfold bind at 1. unfold json_load. simpl. rewrite Hf, Hj.
  destruct (build j (st_heap st)) as [job h]. unfold bind at 1.
  destruct (add_file_info_to_job w client job paths
              {| st_heap := h; st_trace := st_trace st |}) as [[job2|c|e] st2];
    try reflexivity.
  destruct (truthy out) as [path|]; [|reflexivity].
  destruct (dump_into_read_handle w job2 path st2) as [e0 He0].
  unfold py_open in He0. unfold bind at 1. rewrite He0. reflexivity.
Qed.

End SubmitRuns.

(** The two ways in which [submit] ends before it uploads anything. *)
Lemma submit_reads_the_job_file_first_aux
    (w : world) (client : Client) (job_path : string) (out : option string)
    (paths : list string) (st : state) :
  (files w job_path = None →
   submit w client job_path out paths st = (Raise FileNotFoundError, st))
  ∧ (∀ f, files w job_path = Some f → json_loads w (contents f) = None →
          submit w client job_path out paths st = (Raise JSONDecodeError, st)).
Proof.
  split.
  - intros Hf. unfold submit. unfold bind at 1. unfold py_open. rewrite Hf. reflexivity.
  - intros f Hf Hj. unfold submit. unfold bind at 1. unfold py_open at 1. rewrite Hf.
    unfold ret at 1. unfold bind at 1. unfold json_load. simpl. rewrite Hf, Hj.
    reflexivity.
Qed.

(** X11.  [submit] reads and parses the job file before anything else: a
    job file that is missing, or whose text is not JSON, ends the run by the
    exception of [open] or of [json.load], with no file uploaded and nothing
    printed. *)
Theorem submit_reads_the_job_file_first
    (w : world) (client : Client) (job_path : string) (out : option string)
    (paths : list string) (st : state) :
  (files w job_path = None →
   submit w client job_path out paths st = (Raise FileNotFoundError, st))
  ∧ (∀ f, files w job_path = Some f → json_loads w (contents f) = None →
          submit w client job_path out paths st = (Raise JSONDecodeError, st)).
Proof. apply submit_reads_the_job_file_first_aux. Qed.

(** X12.  [submit] posts the job at most once, and only as its last
    request: everything before the post is the assembly (uploads, appends,
    prints), nothing is ever written to a file, and after the post only the
    status line and the response body are printed.  A run that returns has
    posted exactly once, with no output path in force. *)
Theorem submit_posts_once_after_assembly
    (w : world) (client : Client) (job_path : string) (out : option string)
    (paths : list string) (st : state) (r : outcome unit) (st' : state) :
  submit w client job_path out paths st = (r, st') →
  ∃ pre tail,
    st_trace st' = st_trace st ++ pre ++ tail
    ∧ Forall (fun e => is_post e = false ∧ is_write e = false) pre
    ∧ ((tail = [] ∧ r ≠ Ret tt)
       ∨ (∃ body, tail = [EvPost (_url w client "api/accounts/" "/jobs") body]
                  ∧ r = Raise ConnectionError ∧ truthy out = None)
       ∨ (∃ body resp,
            tail = [EvPost (_url w client "api/accounts/" "/jobs") body;
                    EvPrint (hook_line resp);
                    EvPrint (response_body w resp)]
            ∧ r = Ret tt
            ∧ http_post w (_url w client "api/accounts/" "/jobs") body = Some resp
            ∧ truthy out = None)).
Proof.
  assert (Hstop : ∀ (e : exn) (s : state), st_trace s = st_trace st →
            ∃ pre tail : list event,
              st_trace s = st_trace st ++ pre ++ tail
              ∧ Forall (fun e => is_post e = false ∧ is_write e = false) pre
              ∧ ((tail = [] ∧ Raise e ≠ Ret tt)
                 ∨ (∃ body, tail = [EvPost (_url w client "api/accounts/" "/jobs") body]
                            ∧ @Raise unit e = Raise ConnectionError ∧ truthy out = None)
                 ∨ (∃ body resp,
                      tail = [EvPost (_url w client "api/accounts/" "/jobs") body;
                              EvPrint (hook_line resp);
                              EvPrint (response_body w resp)]
                      ∧ @Raise unit e = Ret tt
                      ∧ http_post w (_url w client "api/accounts/" "/jobs") body
                        = Some resp
                      ∧ truthy out = None))).
  { intros e s Hs. exists [], []. rewrite Hs, !app_nil_r.
    split_and!; auto; try (left; split; [reflexivity | discriminate]). }
  destruct (files w job_path) as [f|] eqn:Hf.
  2:{ rewrite (proj1 (submit_reads_the_job_file_first_aux w client job_path out paths st) Hf).
      intros [= <- <-]. apply Hstop. reflexivity. }
  destruct (json_loads w (contents f)) as [j|] eqn:Hj.
  2:{ rewrite (proj2 (submit_reads_the_job_file_first_aux w client job_path out paths st)
                 f Hf Hj).
      intros [= <- <-]. apply Hstop. reflexivity. }
  rewrite (submit_run w client _ _ _ _ _ _ Hf Hj).
  destruct (build j (st_heap st)) as [job h].
  destruct (add_file_info_to_job w client job paths
              {| st_heap := h; st_trace := st_trace st |}) as [r2 st2] eqn:Hrun.
  apply add_file_info_quiet in Hrun as (evs & Ht & Hq). simpl in Ht.
  destruct r2 as [job2|c|e].
  - destruct (truthy out) as [path|] eqn:Hout.
    + destruct (dump_into_read_handle w job2 path st2) as [e0 He0]. rewrite He0.
      intros [= <- <-]. exists evs, []. rewrite app_nil_r.
      split_and!; auto; try (left; split; [reflexivity | discriminate]).
    + rewrite submit_job_run.
      destruct (post_body (st_heap st2) job2) as [body|].
      2:{ intros [= <- <-]. exists evs, []. rewrite app_nil_r.
          split_and!; auto; try (left; split; [reflexivity | discriminate]). }
      destruct (http_post w (_url w client "api/accounts/" "/jobs") body) as [resp|] eqn:Hp.
      * intros [= <- <-]. eexists evs, _. simpl. rewrite Ht, <- app_assoc.
        split; [reflexivity|]. split; [exact Hq|]. right. right.
        exists body, resp. auto.
      * intros [= <- <-]. eexists evs, _. simpl. rewrite Ht, <- app_assoc.
        split; [reflexivity|]. split; [exact Hq|]. right. left.
        exists body. auto.
  - intros [= <- <-]. exists evs, []. rewrite app_nil_r.
    split_and!; auto; try (left; split; [reflexivity | discriminate]).
  - intros [= <- <-]. exists evs, []. rewrite app_nil_r.
    split_and!; auto; try (left; split; [reflexivity | discriminate]).
Qed.

(** ** Loading a document and writing it back *)

Section LoadFacts.

Lemma build_items_eq items h :
  (fix go (items : list json) (h : heap) : list value * heap :=
     match items with
     | [] => ([], h)
     | j :: rest =>
         let '(v, h1) := build j h in
         let '(vs, h2) := go rest h1 in
         (v :: vs, h2)
     end) items h = build_items items h.
Proof.
  revert h. induction items as [|j rest IH]; intros h; [reflexivity|].
  simpl. destruct (build j h) as [v h1]. rewrite IH. reflexivity.
Qed.

Lemma build_members_eq members h :
  (fix go (members : list (string * json)) (h : heap)
     : list (string * value) * heap :=
     match members with
     | [] => ([], h)
     | (k, j) :: rest =>
         let '(v, h1) := build j h in
         let '(es, h2) := go rest h1 in
         ((k, v) :: es, h2)
     end) members h = build_members members h.
Proof.
  revert h. induction members as [|[k j] rest IH]; intros h; [reflexivity|].
  simpl. destruct (build j h) as [v h1]. rewrite IH. reflexivity.
Qed.

Lemma build_arr items h :
  build (JArr items) h
  = let '(vs, h1) := build_items items h in
    (VRef (fresh (dom h1)), <[fresh (dom h1) := OList vs]> h1).
Proof. simpl. rewrite build_items_eq. reflexivity. Qed.

Lemma build_obj members h :
  build (JObj members) h
  = let '(es, h1) := build_members members h in
    (VRef (fresh (dom h1)), <[fresh (dom h1) := ODict (dict_of_pairs es)]> h1).
Proof. simpl. rewrite build_members_eq. reflexivity. Qed.

Lemma dict_set_new {A} key (v : A) entries :
  key ∉ map fst entries → dict_set key v entries = entries ++ [(key, v)].
Proof.
  induction entries as [|[k x] rest IH]; simpl; intros Hk; [reflexivity|].
  destruct (String.eqb_spec k key) as [->|Hne].
  - exfalso. apply Hk. left.
  - rewrite IH; [reflexivity|]. intros Hin. apply Hk. right. exact Hin.
Qed.

Lemma dict_of_pairs_fold (acc es : list (string * value)) :
  NoDup (map fst (acc ++ es)) →
  fold_left (fun d kv => dict_set (fst kv) (snd kv) d) es acc = acc ++ es.
Proof.
  revert acc. induction es as [|[k v] es IH]; intros acc Hnd; simpl.
  - rewrite app_nil_r. reflexivity.
  - rewrite dict_set_new.
    + rewrite IH; rewrite <- app_assoc; [reflexivity | exact Hnd].
    + rewrite map_app in Hnd. apply NoDup_app in Hnd as (_ & Hdis & _).
      intros Hin. apply (Hdis k Hin). left.
Qed.

(** Without a key twice, [dict(pairs)] keeps the pairs as they are. *)
Lemma dict_of_pairs_unique (es : list (string * value)) : NoDup (map fst es) → dict_of_pairs es = es.
Proof. intros Hnd. apply (dict_of_pairs_fold [] es Hnd). Qed.

Lemma heap_alloc_facts (h : heap) o :
  h ⊆ <[fresh (dom h) := o]> h
  ∧ size (<[fresh (dom h) := o]> h) = S (size h)
  ∧ <[fresh (dom h) := o]> h !! fresh (dom h) = Some o.
Proof.
  assert (Hfresh : h !! fresh (dom h) = None) by (apply not_elem_of_dom, is_fresh).
  split_and!.
  - apply insert_subseteq, Hfresh.
  - apply map_size_insert_None, Hfresh.
  - apply lookup_insert_eq.
Qed.

(** What [build] does: the store gets one new object per array and object
    of the text and keeps all the others, and the new value stands for the
    text. *)
Lemma build_spec j : ∀ h v h',
  build j h = (v, h') →
  h ⊆ h'
  ∧ size h' = (size h + containers j)%nat
  ∧ (unique_keys j = true → reify (containers j) h' v = Some j).
Proof.
  induction j as [| b | n | s | items IH | members IH] using json_induction;
    intros h v h'; try (intros [= <- <-]; rewrite Nat.add_0_r; auto; fail).
  - rewrite build_arr.
    assert (Hitems : ∀ h vs h1, build_items items h = (vs, h1) →
              h ⊆ h1
              ∧ size h1 = (size h + fold_right (fun j n => (containers j + n)%nat) O items)%nat
              ∧ (forallb unique_keys items = true →
                 Forall2 (fun v j =>
                   reify (fold_right (fun j n => (containers j + n)%nat) O items) h1 v
                   = Some j) vs items)).
    { clear h v h'. induction IH as [|j rest Hj _ IHrest]; intros h vs h1; simpl.
      - intros [= <- <-]. rewrite Nat.add_0_r. split_and!; auto; constructor.
      - destruct (build j h) as [v ha] eqn:Hb.
        destruct (build_items rest ha) as [vs' hb] eqn:Hr.
        intros [= <- <-].
        apply Hj in Hb as (Hs1 & Hz1 & Hre1).
        apply IHrest in Hr as (Hs2 & Hz2 & Hre2).
        split_and!; [etrans; eauto | lia |].
        intros Hu. apply andb_true_iff in Hu as [Hu1 Hu2]. constructor.
        + eapply reify_mono; [exact Hs2 | | exact (Hre1 Hu1)]. lia.
        + eapply Forall2_impl; [exact (Hre2 Hu2)|]. intros x y Hxy.
          eapply reify_mono; [reflexivity | | exact Hxy]. lia. }
    destruct (build_items items h) as [vs h1] eqn:Hb.
    apply Hitems in Hb as (Hs & Hz & Hre).
    intros [= <- <-].
    destruct (heap_alloc_facts h1 (OList vs)) as (Hs' & Hz' & Hl).
    split_and!; [etrans; eauto | simpl; lia |].
    intros Hu. simpl in Hu. simpl. rewrite Hl.
    apply fmap_Some. exists items. split; [|reflexivity].
    apply mapM_Some. eapply Forall2_impl; [exact (Hre Hu)|]. intros x y Hxy.
    eapply reify_mono; [exact Hs' | | exact Hxy]. lia.
  - rewrite build_obj.
    assert (Hmembers : ∀ h es h1, build_members members h = (es, h1) →
              h ⊆ h1
              ∧ size h1
                = (size h + fold_right (fun kv n => (containers (snd kv) + n)%nat) O members)%nat
              ∧ map fst es = map fst members
              ∧ (forallb (fun kv => unique_keys (snd kv)) members = true →
                 Forall2 (fun e m =>
                   pair (fst e) <$>
                     reify (fold_right (fun kv n => (containers (snd kv) + n)%nat) O members)
                       h1 (snd e)
                   = Some m) es members)).
    { clear h v h'. induction IH as [|[k j] rest Hj _ IHrest]; intros h es h1; simpl.
      - intros [= <- <-]. rewrite Nat.add_0_r. split_and!; auto; constructor.
      - destruct (build j h) as [v ha] eqn:Hb.
        destruct (build_members rest ha) as [es' hb] eqn:Hr.
        intros [= <- <-]. simpl in Hj.
        apply Hj in Hb as (Hs1 & Hz1 & Hre1).
        apply IHrest in Hr as (Hs2 & Hz2 & Hk2 & Hre2).
        split_and!; [etrans; eauto | lia | simpl; congruence |].
        intros Hu. apply andb_true_iff in Hu as [Hu1 Hu2]. constructor.
        + simpl. apply fmap_Some. exists j. split; [|reflexivity].
          eapply reify_mono; [exact Hs2 | | exact (Hre1 Hu1)]. lia.
        + eapply Forall2_impl; [exact (Hre2 Hu2)|]. intros x y Hxy.
          apply fmap_Some in Hxy as (jy & Hjy & ->).
          apply fmap_Some. exists jy. split; [|reflexivity].
          eapply reify_mono; [reflexivity | | exact Hjy]. lia. }
    destruct (build_members members h) as [es h1] eqn:Hb.
    apply Hmembers in Hb as (Hs & Hz & Hk & Hre).
    intros [= <- <-].
    destruct (heap_alloc_facts h1 (ODict (dict_of_pairs es))) as (Hs' & Hz' & Hl).
    split_and!; [etrans; eauto | simpl; lia |].
    intros Hu. simpl in Hu. apply andb_true_iff in Hu as [Hnd Hu].
    apply bool_decide_eq_true in Hnd.
    rewrite (dict_of_pairs_unique es) in * by (rewrite Hk; exact Hnd).
    simpl. rewrite Hl.
    apply fmap_Some. exists members. split; [|reflexivity].
    apply mapM_Some. eapply Forall2_impl; [exact (Hre Hu)|]. intros x y Hxy.
    apply fmap_Some in Hxy as (jy & Hjy & ->).
    apply fmap_Some. exists jy. split; [|reflexivity].
    eapply reify_mono; [exact Hs' | | exact Hjy]. lia.
Qed.

Lemma build_snapshot j h v h' :
  build j h = (v, h') → unique_keys j = true → snapshot h' v = Some j.
Proof.
  intros Hb Hu. apply build_spec in Hb as (_ & Hz & Hre).
  unfold snapshot. eapply reify_mono; [reflexivity | | exact (Hre Hu)]. lia.
Qed.

(** The body prepared for a document is the one of the text that the
    encoder sees. *)
Lemma post_body_snapshot h v j :
  snapshot h v = Some j → post_body h v = json_post_body j.
Proof.
  intros Hs. unfold post_body. rewrite Hs. unfold snapshot in Hs.
  destruct v as [| b | n | s | l].
  - destruct (size h); injection Hs as <-; reflexivity.
  - destruct (size h); injection Hs as <-; reflexivity.
  - destruct (size h); injection Hs as <-; reflexivity.
  - destruct (size h); injection Hs as <-; reflexivity.
  - destruct (size h) as [|n]; [discriminate|].
    simpl in Hs. destruct (h !! l) as [[es|vs]|]; [| |discriminate];
      apply fmap_Some in Hs as (x & _ & ->); reflexivity.
Qed.

End LoadFacts.

(** X13.  [json.load] then [json.dump] is a round trip.  Loading a parsed
    text creates one new object per array and object of the text, changes no
    object that was there and prints nothing; when no object of the text has
    a key twice, the loaded value is seen by the encoder as the very text
    that was parsed, so that dumping it to a file opened for writing writes
    [json.dumps] of that text. *)
Theorem load_then_dump_round_trip
    (w : world) (path : string) (f : file_data) (j : json) (st : state) :
  files w path = Some f →
  json_loads w (contents f) = Some j →
  ∃ v st',
    json_load w {| h_path := path; h_mode := ModeR |} st = (Ret v, st')
    ∧ st_trace st' = st_trace st
    ∧ (∀ l o, st_heap st !! l = Some o → st_heap st' !! l = Some o)
    ∧ size (st_heap st') = (size (st_heap st) + containers j)%nat
    ∧ (unique_keys j = true →
       snapshot (st_heap st') v = Some j
       ∧ ∀ out, json_dump w v {| h_path := out; h_mode := ModeW |} st'
                = (Ret tt, log st' [EvWrite out (json_dumps w j)])).
Proof.
  intros Hf Hj. unfold json_load. simpl. rewrite Hf, Hj.
  destruct (build j (st_heap st)) as [v h] eqn:Hb.
  exists v. eexists. split; [reflexivity|]. simpl.
  pose proof (build_spec _ _ _ _ Hb) as (Hs & Hz & _).
  split_and!; auto.
  - intros l o Hl. eapply lookup_weaken; eauto.
  - intros Hu. pose proof (build_snapshot _ _ _ _ Hb Hu) as Hsnap.
    split; [exact Hsnap|]. intros out. unfold json_dump. simpl. rewrite Hsnap.
    reflexivity.
Qed.

(** X14.  [submit] with no files and no output path sends the job file as
    it was parsed, without looking at [setup.package.fileInformations]: for
    a job text without a key twice, the body of the one request is that text
    when all its numbers are finite; the text [null] is posted without a
    body; and a text with a number that is not finite makes the call raise
    [InvalidJSONError] with no request made. *)
Theorem submit_without_files_posts_the_parsed_job
    (w : world) (client : Client) (job_path : string) (out : option string)
    (f : file_data) (j : json) (st : state) :
  files w job_path = Some f →
  json_loads w (contents f) = Some j →
  unique_keys j = true →
  truthy out = None →
  ∃ r st' tail,
    submit w client job_path out [] st = (r, st')
    ∧ match json_post_body j with
      | Some body =>
          st_trace st' = st_trace st
                           ++ EvPost (_url w client "api/accounts/" "/jobs") body :: tail
          ∧ match http_post w (_url w client "api/accounts/" "/jobs") body with
            | Some resp =>
                r = Ret tt
                ∧ tail = [EvPrint (hook_line resp); EvPrint (response_body w resp)]
            | None => r = Raise ConnectionError ∧ tail = []
            end
      | None => r = Raise InvalidJSONError ∧ st_trace st' = st_trace st
      end
    ∧ json_post_body j
      = match j with
        | JNull => Some None
        | _ => if finite_json j then Some (Some j) else None
        end.
Proof.
  intros Hf Hj Hu Hout.
  rewrite (submit_run w client _ _ _ _ _ _ Hf Hj).
  destruct (build j (st_heap st)) as [v h] eqn:Hb.
  change (add_file_info_to_job w client v [] {| st_heap := h; st_trace := st_trace st |})
    with (Ret v, {| st_heap := h; st_trace := st_trace st |}).
  cbv beta iota. rewrite Hout, submit_job_run. simpl st_heap.
  rewrite (post_body_snapshot _ _ _ (build_snapshot _ _ _ _ Hb Hu)).
  assert (Hdef : json_post_body j
                 = match j with
                   | JNull => Some None
                   | _ => if finite_json j then Some (Some j) else None
                   end) by (destruct j; reflexivity).
  destruct (json_post_body j) as [body|].
  - destruct (http_post w (_url w client "api/accounts/" "/jobs") body) as [resp|];
      eexists _, _, _; (split; [reflexivity|]); simpl; auto.
  - eexists _, _, []. split; [reflexivity|]. auto.
Qed.

(** ** The assembly on trees *)

Section TreeFacts.

Lemma build_items_spec items : ∀ h vs h1,
  build_items items h = (vs, h1) →
  h ⊆ h1
  ∧ (forallb unique_keys items = true →
     Forall2 (fun v j => reify (containers j) h1 v = Some j) vs items).
Proof.
  induction items as [|j rest IH]; intros h vs h1; simpl.
  - intros [= <- <-]. split; [reflexivity | intros _; constructor].
  - destruct (build j h) as [v ha] eqn:Hb.
    destruct (build_items rest ha) as [vs' hb] eqn:Hr.
    intros [= <- <-].
    apply build_spec in Hb as (Hs1 & _ & Hre1).
    apply IH in Hr as (Hs2 & Hre2).
    split; [etrans; eauto|].
    intros Hu. apply andb_true_iff in Hu as [Hu1 Hu2]. constructor; [|auto].
    eapply reify_mono; [exact Hs2 | | exact (Hre1 Hu1)]. lia.
Qed.

Lemma build_members_spec members : ∀ h es h1,
  build_members members h = (es, h1) →
  h ⊆ h1
  ∧ map fst es = map fst members
  ∧ (forallb (fun kv => unique_keys (snd kv)) members = true →
     Forall2 (fun e m => reify (containers (snd m)) h1 (snd e) = Some (snd m)) es members).
Proof.
  induction members as [|[k j] rest IH]; intros h es h1; simpl.
  - intros [= <- <-]. split_and!; auto; constructor.
  - destruct (build j h) as [v ha] eqn:Hb.
    destruct (build_members rest ha) as [es' hb] eqn:Hr.
    intros [= <- <-].
    apply build_spec in Hb as (Hs1 & _ & Hre1).
    apply IH in Hr as (Hs2 & Hk2 & Hre2).
    split_and!; [etrans; eauto | simpl; congruence |].
    intros Hu. apply andb_true_iff in Hu as [Hu1 Hu2]. constructor; [|auto].
    simpl. eapply reify_mono; [exact Hs2 | | exact (Hre1 Hu1)]. lia.
Qed.

Lemma dict_set_Forall {A} (P : A → Prop) key v (entries : list (string * A)) :
  Forall (fun e => P (snd e)) entries → P v →
  Forall (fun e => P (snd e)) (dict_set key v entries).
Proof.
  intros Hall Hv. induction Hall as [|[k x] rest Hx Hrest IH]; simpl.
  - repeat constructor. exact Hv.
  - destruct (String.eqb k key); constructor; auto.
Qed.

(** Every value of [dict(pairs)] is a value of the pairs. *)
Lemma dict_of_pairs_Forall (P : value → Prop) (es : list (string * value)) :
  Forall (fun e => P (snd e)) es → Forall (fun e => P (snd e)) (dict_of_pairs es).
Proof.
  unfold dict_of_pairs.
  assert (H : ∀ acc, Forall (fun e => P (snd e)) acc → Forall (fun e => P (snd e)) es →
                     Forall (fun e => P (snd e))
                       (fold_left (fun d kv => dict_set (fst kv) (snd kv) d) es acc)).
  { induction es as [|[k v] es IH]; intros acc Hacc Hes; simpl; [exact Hacc|].
    apply Forall_cons in Hes as [Hv Hes]. apply IH; [|exact Hes].
    apply dict_set_Forall; assumption. }
  intros Hes. apply H; [constructor | exact Hes].
Qed.

Lemma agree_on_new_self h h0 : agree_on_new h h h0.
Proof. intros l _ _. reflexivity. Qed.

(** Agreement on what a build has made gives agreement on what a part of it
    has made. *)
Lemma agree_on_new_part g h h0 ha hb :
  agree_on_new g h h0 → h0 ⊆ ha → hb ⊆ h → agree_on_new g hb ha.
Proof.
  intros Hg H0 Hb l Hl [o Ho].
  pose proof (lookup_weaken _ _ _ _ Ho Hb) as Ho'.
  rewrite Ho, <- Ho'. apply Hg; [|eauto].
  destruct (h0 !! l) as [o0|] eqn:Hl0; [|reflexivity].
  rewrite (lookup_weaken _ _ _ _ Hl0 H0) in Hl. discriminate.
Qed.

(** What the encoder sees of a built value depends on the objects of that
    build only. *)
Lemma build_local j : ∀ h0 v h,
  build j h0 = (v, h) →
  ∀ g n, agree_on_new g h h0 → reify n g v = reify n h v.
Proof.
  induction j as [| b | n0 | s | items IH | members IH] using json_induction;
    intros h0 v h; try (intros [= <- <-] g n _; destruct n; reflexivity).
  - rewrite build_arr.
    assert (Hitems : ∀ ha vs hb, build_items items ha = (vs, hb) →
              ∀ g n, agree_on_new g hb ha →
                     Forall (fun v => reify n g v = reify n hb v) vs).
    { clear h0 v h. induction IH as [|j rest Hj _ IHrest]; intros ha vs hb; simpl.
      - intros [= <- <-] g n _. constructor.
      - destruct (build j ha) as [v h1] eqn:Hb.
        destruct (build_items rest h1) as [vs' h2] eqn:Hr.
        intros [= <- <-] g n Hg.
        pose proof (build_spec _ _ _ _ Hb) as (Hs1 & _).
        pose proof (build_items_spec _ _ _ _ Hr) as (Hs2 & _).
        constructor.
        + rewrite (Hj _ _ _ Hb g n), (Hj _ _ _ Hb h2 n); [reflexivity | |].
          * eapply agree_on_new_part; [apply agree_on_new_self | reflexivity | exact Hs2].
          * eapply agree_on_new_part; [exact Hg | reflexivity | exact Hs2].
        + eapply IHrest; [exact Hr|].
          eapply agree_on_new_part; [exact Hg | exact Hs1 | reflexivity]. }
    destruct (build_items items h0) as [vs hb] eqn:Hb.
    pose proof (build_items_spec _ _ _ _ Hb) as (Hs & _).
    intros [= <- <-] g n Hg.
    destruct (heap_alloc_facts hb (OList vs)) as (Hs' & _ & Hl).
    assert (Hnew : h0 !! fresh (dom hb) = None).
    { destruct (h0 !! fresh (dom hb)) as [o|] eqn:H0; [|reflexivity].
      apply (lookup_weaken _ _ _ _ H0) in Hs.
      apply (elem_of_dom_2 (D:=gset loc)) in Hs. destruct (is_fresh _ Hs). }
    destruct n as [|n]; [reflexivity|]. simpl.
    rewrite (Hg _ Hnew) by eauto. rewrite Hl. f_equal.
    apply Forall_mapM_ext.
    pose proof (Hitems _ _ _ Hb g n) as H1.
    pose proof (Hitems _ _ _ Hb (<[fresh (dom hb) := OList vs]> hb) n) as H2.
    assert (A1 : agree_on_new g hb h0)
      by (eapply agree_on_new_part; [exact Hg | reflexivity | exact Hs']).
    assert (A2 : agree_on_new (<[fresh (dom hb) := OList vs]> hb) hb h0)
      by (eapply agree_on_new_part; [apply agree_on_new_self | reflexivity | exact Hs']).
    specialize (H1 A1). specialize (H2 A2).
    rewrite Forall_forall in H1, H2. apply Forall_forall. intros x Hx.
    rewrite (H1 x Hx), (H2 x Hx). reflexivity.
  - rewrite build_obj.
    assert (Hmembers : ∀ ha es hb, build_members members ha = (es, hb) →
              ∀ g n, agree_on_new g hb ha →
                     Forall (fun e => reify n g (snd e) = reify n hb (snd e)) es).
    { clear h0 v h. induction IH as [|[k j] rest Hj _ IHrest]; intros ha es hb; simpl.
      - intros [= <- <-] g n _. constructor.
      - destruct (build j ha) as [v h1] eqn:Hb.
        destruct (build_members rest h1) as [es' h2] eqn:Hr.
        intros [= <- <-] g n Hg. simpl in Hj.
        pose proof (build_spec _ _ _ _ Hb) as (Hs1 & _).
        pose proof (build_members_spec _ _ _ _ Hr) as (Hs2 & _).
        constructor.
        + simpl. rewrite (Hj _ _ _ Hb g n), (Hj _ _ _ Hb h2 n); [reflexivity | |].
          * eapply agree_on_new_part; [apply agree_on_new_self | reflexivity | exact Hs2].
          * eapply agree_on_new_part; [exact Hg | reflexivity | exact Hs2].
        + eapply IHrest; [exact Hr|].
          eapply agree_on_new_part; [exact Hg | exact Hs1 | reflexivity]. }
    destruct (build_members members h0) as [es hb] eqn:Hb.
    pose proof (build_members_spec _ _ _ _ Hb) as (Hs & _).
    intros [= <- <-] g n Hg.
    destruct (heap_alloc_facts hb (ODict (dict_of_pairs es))) as (Hs' & _ & Hl).
    assert (Hnew : h0 !! fresh (dom hb) = None).
    { destruct (h0 !! fresh (dom hb)) as [o|] eqn:H0; [|reflexivity].
      apply (lookup_weaken _ _ _ _ H0) in Hs.
      apply (elem_of_dom_2 (D:=gset loc)) in Hs. destruct (is_fresh _ Hs). }
    destruct n as [|n]; [reflexivity|]. simpl.
    rewrite (Hg _ Hnew) by eauto. rewrite Hl. f_equal.
    apply Forall_mapM_ext.
    pose proof (Hmembers _ _ _ Hb g n) as H1.
    pose proof (Hmembers _ _ _ Hb (<[fresh (dom hb) := ODict (dict_of_pairs es)]> hb) n)
      as H2.
    assert (A1 : agree_on_new g hb h0)
      by (eapply agree_on_new_part; [exact Hg | reflexivity | exact Hs']).
    assert (A2 : agree_on_new (<[fresh (dom hb) := ODict (dict_of_pairs es)]> hb) hb h0)
      by (eapply agree_on_new_part; [apply agree_on_new_self | reflexivity | exact Hs']).
    specialize (H1 A1). specialize (H2 A2).
    eapply Forall_impl;
      [apply (dict_of_pairs_Forall
                (fun v => reify n g v
                          = reify n (<[fresh (dom hb) := ODict (dict_of_pairs es)]> hb) v))
      | simpl; intros x ->; reflexivity].
    rewrite Forall_forall in H1, H2. apply Forall_forall. intros x Hx.
    rewrite (H1 x Hx), (H2 x Hx). reflexivity.
Qed.

(** A built value is seen as its text in every store that has the objects
    of the build unchanged. *)
Lemma build_reify_agree j h0 v h g n :
  build j h0 = (v, h) → unique_keys j = true →
  agree_on_new g h h0 → (containers j ≤ n)%nat →
  reify n g v = Some j.
Proof.
  intros Hb Hu Hg Hn. rewrite (build_local _ _ _ _ Hb g n Hg).
  apply build_spec in Hb as (_ & _ & Hre).
  eapply reify_mono; [reflexivity | exact Hn | exact (Hre Hu)].
Qed.

Lemma build_items_reify_agree items : ∀ ha vs hb g n,
  build_items items ha = (vs, hb) →
  forallb unique_keys items = true →
  agree_on_new g hb ha →
  (fold_right (fun j n => (containers j + n)%nat) O items ≤ n)%nat →
  Forall2 (fun v j => reify n g v = Some j) vs items.
Proof.
  induction items as [|j rest IH]; intros ha vs hb g n; simpl.
  - intros [= <- <-] _ _ _. constructor.
  - destruct (build j ha) as [v h1] eqn:Hb.
    destruct (build_items rest h1) as [vs' h2] eqn:Hr.
    intros [= <- <-] Hu Hg Hn. apply andb_true_iff in Hu as [Hu1 Hu2].
    pose proof (build_spec _ _ _ _ Hb) as (Hs1 & _).
    pose proof (build_items_spec _ _ _ _ Hr) as (Hs2 & _).
    constructor.
    + eapply build_reify_agree; [exact Hb | exact Hu1 | | lia].
      eapply agree_on_new_part; [exact Hg | reflexivity | exact Hs2].
    + eapply IH; [exact Hr | exact Hu2 | | lia].
      eapply agree_on_new_part; [exact Hg | exact Hs1 | reflexivity].
Qed.

Lemma build_members_reify_agree members : ∀ ha es hb g n,
  build_members members ha = (es, hb) →
  forallb (fun kv => unique_keys (snd kv)) members = true →
  agree_on_new g hb ha →
  (fold_right (fun kv n => (containers (snd kv) + n)%nat) O members ≤ n)%nat →
  Forall2 (fun e m => pair (fst e) <$> reify n g (snd e) = Some m) es members.
Proof.
  induction members as [|[k j] rest IH]; intros ha es hb g n; simpl.
  - intros [= <- <-] _ _ _. constructor.
  - destruct (build j ha) as [v h1] eqn:Hb.
    destruct (build_members rest h1) as [es' h2] eqn:Hr.
    intros [= <- <-] Hu Hg Hn. apply andb_true_iff in Hu as [Hu1 Hu2].
    pose proof (build_spec _ _ _ _ Hb) as (Hs1 & _).
    pose proof (build_members_spec _ _ _ _ Hr) as (Hs2 & _).
    constructor.
    + simpl. erewrite build_reify_agree; [reflexivity | exact Hb | exact Hu1 | | lia].
      eapply agree_on_new_part; [exact Hg | reflexivity | exact Hs2].
    + eapply IH; [exact Hr | exact Hu2 | | lia].
      eapply agree_on_new_part; [exact Hg | exact Hs1 | reflexivity].
Qed.

(** The fuel that a text needs is its number of arrays and objects at most. *)
Lemma reify_fuel_containers n : ∀ g v j,
  reify n g v = Some j → reify (containers j) g v = Some j.
Proof.
  induction n as [|n IH]; intros g v j.
  - destruct v; simpl; try discriminate; intros [= <-]; reflexivity.
  - destruct v as [| | | |l]; try (simpl; intros [= <-]; reflexivity).
    simpl. destruct (g !! l) as [[entries|items]|] eqn:Hl; [| |discriminate].
    + intros H. apply fmap_Some in H as (ms & Hms & ->). simpl. rewrite Hl.
      apply fmap_Some. exists ms. split; [|reflexivity].
      apply mapM_Some. apply mapM_Some in Hms. clear Hl.
      induction Hms as [|e m es ms' Hem _ IHms]; [constructor|]. simpl.
      constructor.
      * apply fmap_Some in Hem as (jm & Hjm & ->). simpl.
        apply fmap_Some. exists jm. split; [|reflexivity].
        eapply reify_mono; [reflexivity | | exact (IH _ _ _ Hjm)]. lia.
      * eapply Forall2_impl; [exact IHms|]. intros x y Hxy.
        apply fmap_Some in Hxy as (jy & Hjy & ->).
        apply fmap_Some. exists jy. split; [|reflexivity].
        eapply reify_mono; [reflexivity | | exact Hjy]. lia.
    + intros H. apply fmap_Some in H as (js & Hjs & ->). simpl. rewrite Hl.
      apply fmap_Some. exists js. split; [|reflexivity].
      apply mapM_Some. apply mapM_Some in Hjs. clear Hl.
      induction Hjs as [|x y xs ys Hxy _ IHjs]; [constructor|]. simpl.
      constructor.
      * eapply reify_mono; [reflexivity | | exact (IH _ _ _ Hxy)]. lia.
      * eapply Forall2_impl; [exact IHjs|]. intros x' y' Hxy'.
        eapply reify_mono; [reflexivity | | exact Hxy']. lia.
Qed.

Lemma containers_dict_set key (x x' : json) (members : list (string * json)) :
  dict_get key members = Some x →
  (fold_right (fun kv n => (containers (snd kv) + n)%nat) O (dict_set key x' members)
   + containers x
   = fold_right (fun kv n => (containers (snd kv) + n)%nat) O members + containers x')%nat.
Proof.
  induction members as [|[k y] rest IH]; simpl; [discriminate|].
  destruct (String.eqb k key).
  - intros [= ->]. simpl. lia.
  - intros Hx. simpl. specialize (IH Hx). lia.
Qed.

Lemma containers_member_le key (x : json) (members : list (string * json)) :
  dict_get key members = Some x →
  (containers x ≤ fold_right (fun kv n => (containers (snd kv) + n)%nat) O members)%nat.
Proof.
  induction members as [|[k y] rest IH]; simpl; [discriminate|].
  destruct (String.eqb k key).
  - intros [= ->]. lia.
  - intros Hx. specialize (IH Hx). lia.
Qed.

(** One member of an object that is being built: where its value is made,
    and how the object is seen in a store in which only objects of that
    member may differ. *)
Lemma build_members_focus members : ∀ ha es hb key x,
  build_members members ha = (es, hb) →
  forallb (fun kv => unique_keys (snd kv)) members = true →
  dict_get key members = Some x →
  ∃ vx hx0 hx,
    dict_get key es = Some vx
    ∧ build x hx0 = (vx, hx)
    ∧ ha ⊆ hx0 ∧ hx ⊆ hb
    ∧ unique_keys x = true
    ∧ ∀ g n x',
        (∀ l, ha !! l = None → is_Some (hb !! l) →
              is_Some (hx0 !! l) ∨ hx !! l = None → g !! l = hb !! l) →
        (fold_right (fun kv n => (containers (snd kv) + n)%nat) O members ≤ n)%nat →
        reify n g vx = Some x' →
        Forall2 (fun e m => pair (fst e) <$> reify n g (snd e) = Some m)
          es (dict_set key x' members).
Proof.
  induction members as [|[k j] rest IH]; intros ha es hb key x; simpl; [discriminate|].
  destruct (build j ha) as [v h1] eqn:Hb.
  destruct (build_members rest h1) as [es' h2] eqn:Hr.
  intros [= <- <-] Hu Hget. apply andb_true_iff in Hu as [Hu1 Hu2].
  pose proof (build_spec _ _ _ _ Hb) as (Hs1 & _).
  pose proof (build_members_spec _ _ _ _ Hr) as (Hs2 & _).
  simpl. destruct (String.eqb k key) eqn:Hk.
  - injection Hget as <-. exists v, ha, h1.
    split_and!; auto.
    intros g n x' Hg Hn Hx'. simpl. constructor.
    + simpl. rewrite Hx'. reflexivity.
    + eapply build_members_reify_agree; [exact Hr | exact Hu2 | | lia].
      intros l Hl1 Hl2. apply Hg; auto.
      destruct (ha !! l) as [o|] eqn:Hla; [|reflexivity].
      rewrite (lookup_weaken _ _ _ _ Hla Hs1) in Hl1. discriminate.
  - destruct (IH _ _ _ _ _ Hr Hu2 Hget)
      as (vx & hx0 & hx & Hvx & Hbx & Hsx0 & Hsx & Hux & Hfocus).
    exists vx, hx0, hx. split_and!; auto; [etrans; eauto|].
    intros g n x' Hg Hn Hx'. simpl. rewrite ?Hk. constructor.
    + simpl. erewrite build_reify_agree; [reflexivity | exact Hb | exact Hu1 | | lia].
      intros l Hl1 [o Ho].
      pose proof (lookup_weaken _ _ _ _ Ho Hs2) as Ho2.
      rewrite Ho, <- Ho2. apply Hg; [exact Hl1 | eauto |].
      left. exists o. exact (lookup_weaken _ _ _ _ Ho Hsx0).
    + apply Hfocus; [|lia | exact Hx'].
      intros l Hl1 Hl2 Hl3. apply Hg; auto.
      destruct (ha !! l) as [o|] eqn:Hla; [|reflexivity].
      rewrite (lookup_weaken _ _ _ _ Hla Hs1) in Hl1. discriminate.
Qed.

Lemma dict_get_keys {A B} key (es : list (string * A)) (ms : list (string * B)) :
  map fst es = map fst ms → is_Some (dict_get key es) → is_Some (dict_get key ms).
Proof.
  revert ms. induction es as [|[k v] es IH]; intros [|[k' m] ms]; simpl;
    try discriminate.
  - intros _ [x Hx]. discriminate.
  - intros [= <- Hks]. destruct (String.eqb k key); eauto.
Qed.

(** The same for the object itself. *)
Lemma build_obj_focus members h0 v h key x :
  build (JObj members) h0 = (v, h) →
  unique_keys (JObj members) = true →
  dict_get key members = Some x →
  ∃ vx hx0 hx,
    field h v key = Some vx
    ∧ build x hx0 = (vx, hx)
    ∧ h0 ⊆ hx0 ∧ hx ⊆ h
    ∧ unique_keys x = true
    ∧ ∀ g n x',
        (∀ l, h0 !! l = None → is_Some (h !! l) →
              is_Some (hx0 !! l) ∨ hx !! l = None → g !! l = h !! l) →
        (containers (JObj members) ≤ S n)%nat →
        reify n g vx = Some x' →
        reify (S n) g v = Some (JObj (dict_set key x' members)).
Proof.
  rewrite build_obj. destruct (build_members members h0) as [es hb] eqn:Hb.
  intros [= <- <-] Hu Hget. simpl in Hu. apply andb_true_iff in Hu as [Hnd Hu].
  apply bool_decide_eq_true in Hnd.
  pose proof (build_members_spec _ _ _ _ Hb) as (Hs & Hkeys & _).
  rewrite (dict_of_pairs_unique es) by (rewrite Hkeys; exact Hnd).
  destruct (heap_alloc_facts hb (ODict es)) as (Hs' & _ & Hl).
  destruct (build_members_focus _ _ _ _ _ _ Hb Hu Hget)
    as (vx & hx0 & hx & Hvx & Hbx & Hsx0 & Hsx & Hux & Hfocus).
  assert (Hfresh : hb !! fresh (dom hb) = None) by (apply not_elem_of_dom, is_fresh).
  exists vx, hx0, hx. split_and!; auto.
  - unfold field. rewrite Hl. exact Hvx.
  - etrans; eauto.
  - intros g n x' Hg Hn Hx'. simpl.
    rewrite (Hg (fresh (dom hb))), Hl.
    + apply fmap_Some. eexists. split; [|reflexivity].
      apply mapM_Some. apply Hfocus; [|simpl in Hn; lia | exact Hx'].
      intros l Hl1 [o Ho] Hl3.
      pose proof (lookup_weaken _ _ _ _ Ho Hs') as Ho'.
      rewrite Ho, <- Ho'. apply Hg; eauto.
    + destruct (h0 !! fresh (dom hb)) as [o|] eqn:H0; [|reflexivity].
      rewrite (lookup_weaken _ _ _ _ H0 Hs) in Hfresh. discriminate.
    + eauto.
    + right. destruct (hx !! fresh (dom hb)) as [o|] eqn:Hx; [|reflexivity].
      rewrite (lookup_weaken _ _ _ _ Hx Hsx) in Hfresh. discriminate.
Qed.

(** What kind of value a text is built into: an object with the keys of the
    text for an object, a list for an array, no object at all otherwise. *)
Lemma build_shape j h0 v h :
  build j h0 = (v, h) →
  match j with
  | JObj members =>
      ∃ l es, v = VRef l ∧ h !! l = Some (ODict (dict_of_pairs es))
              ∧ map fst es = map fst members
  | JArr items => ∃ l vs, v = VRef l ∧ h !! l = Some (OList vs)
  | _ => ∀ H key, field H v key = None ∧ as_list H v = None
  end.
Proof.
  destruct j as [| b | n | s | items | members];
    try (intros [= <- <-]; intros H key; split; reflexivity).
  - rewrite build_arr. destruct (build_items items h0) as [vs hb].
    intros [= <- <-]. eexists _, vs. split; [reflexivity|]. apply lookup_insert_eq.
  - rewrite build_obj. destruct (build_members members h0) as [es hb] eqn:Hb.
    intros [= <- <-]. eexists _, es. split; [reflexivity|].
    split; [apply lookup_insert_eq|].
    apply (build_members_spec _ _ _ _ Hb).
Qed.

Lemma agree_outside_cell (g h H hx0 hx : heap) l :
  (∀ l', l' ≠ l → is_Some (h !! l') → g !! l' = h !! l') →
  H ⊆ h → hx0 !! l = None → is_Some (hx !! l) →
  ∀ l', is_Some (H !! l') → is_Some (hx0 !! l') ∨ hx !! l' = None → g !! l' = H !! l'.
Proof.
  intros Hg Hsub Hl0 [ol Hl] l' [o Ho] Hcond.
  assert (Hne : l' ≠ l).
  { intros ->. destruct Hcond as [[o' Ho']|Hn]; congruence. }
  pose proof (lookup_weaken _ _ _ _ Ho Hsub) as Ho'.
  rewrite Ho, <- Ho'. apply Hg; eauto.
Qed.

Lemma lookup_none_weaken (h h' : heap) l : h ⊆ h' → h' !! l = None → h !! l = None.
Proof.
  intros Hsub Hl. destruct (h !! l) as [o|] eqn:Ho; [|reflexivity].
  rewrite (lookup_weaken _ _ _ _ Ho Hsub) in Hl. discriminate.
Qed.

(** The merge on trees and the merge in the store agree: for a document
    built from a text on which the merge on trees succeeds, the path
    resolves in the store, and a store that differs from the built one by
    more items in that list (and by other, new objects) is seen by the
    encoder as the merged text. *)
Lemma append_refines j h0 job h infos j' :
  build j h0 = (job, h) →
  unique_keys j = true →
  append_file_infos infos j = Some j' →
  ∃ l items,
    file_informations h job = Some (l, items)
    ∧ ∀ g news m,
        (∀ l', l' ≠ l → is_Some (h !! l') → g !! l' = h !! l') →
        g !! l = Some (OList (items ++ news)) →
        (containers j ≤ m)%nat →
        Forall2 (fun v i => reify m g v = Some i) news infos →
        reify (S (S (S (S m)))) g job = Some j'.
Proof.
  intros Hb Hu Happ. unfold append_file_infos in Happ.
  destruct j as [| | | | |ms0]; try discriminate. simpl in Happ.
  destruct (dict_get "setup" ms0) as [x1|] eqn:G1; [|discriminate].
  destruct x1 as [| | | | |ms1]; try discriminate. simpl in Happ.
  destruct (dict_get "package" ms1) as [x2|] eqn:G2; [|discriminate].
  destruct x2 as [| | | | |ms2]; try discriminate. simpl in Happ.
  destruct (dict_get "fileInformations" ms2) as [x3|] eqn:G3; [|discriminate].
  destruct x3 as [| | | |xs|]; try discriminate. simpl in Happ.
  injection Happ as <-.
  destruct (build_obj_focus _ _ _ _ _ _ Hb Hu G1)
    as (v1 & h10 & h1e & Hf1 & Hb1 & Hs10 & Hs1e & Hu1 & Foc1).
  destruct (build_obj_focus _ _ _ _ _ _ Hb1 Hu1 G2)
    as (v2 & h20 & h2e & Hf2 & Hb2 & Hs20 & Hs2e & Hu2 & Foc2).
  destruct (build_obj_focus _ _ _ _ _ _ Hb2 Hu2 G3)
    as (v3 & h30 & h3e & Hf3 & Hb3 & Hs30 & Hs3e & Hu3 & Foc3).
  pose proof (containers_member_le _ _ _ G1) as C1.
  pose proof (containers_member_le _ _ _ G2) as C2.
  pose proof (containers_member_le _ _ _ G3) as C3.
  rewrite build_arr in Hb3.
  destruct (build_items xs h30) as [vs hb3] eqn:Hbi.
  injection Hb3 as <- <-.
  pose proof (build_items_spec _ _ _ _ Hbi) as (Hsi & _).
  destruct (heap_alloc_facts hb3 (OList vs)) as (Hsa & _ & Hla).
  set (l := fresh (dom hb3)) in *.
  assert (Hfresh : hb3 !! l = None) by (apply not_elem_of_dom, is_fresh).
  assert (H3e : h2e ⊆ h) by (etrans; eauto).
  assert (Hl3 : is_Some (<[l := OList vs]> hb3 !! l)) by eauto.
  assert (Hl30 : h30 !! l = None) by (eapply lookup_none_weaken; eauto).
  assert (Hl2 : is_Some (h2e !! l)) by (exists (OList vs); eapply lookup_weaken; eauto).
  assert (Hl20 : h20 !! l = None) by (eapply lookup_none_weaken; eauto).
  assert (Hl1 : is_Some (h1e !! l)).
  { destruct Hl2 as [o Ho]. exists o. eapply lookup_weaken; eauto. }
  assert (Hl10 : h10 !! l = None) by (eapply lookup_none_weaken; eauto).
  exists l, vs. split.
  - unfold file_informations. rewrite Hf1.
    rewrite (field_mono _ _ _ _ _ Hs1e Hf2), (field_mono _ _ _ _ _ H3e Hf3).
    unfold as_list.
    rewrite (lookup_weaken _ _ _ _ Hla (transitivity Hs3e H3e)). reflexivity.
  - intros g news m Hg Hgl Hm Hnews. simpl in Hm, C1, C2, C3, Hu3.
    apply (Foc1 g (S (S (S m)))); [| simpl; lia |].
    { intros l' _ Hl' Hc.
      exact (agree_outside_cell g h h h10 h1e l Hg (reflexivity h) Hl10 Hl1 l' Hl' Hc). }
    apply (Foc2 g (S (S m))); [| simpl; lia |].
    { intros l' _ Hl' Hc.
      exact (agree_outside_cell g h h1e h20 h2e l Hg Hs1e Hl20 Hl2 l' Hl' Hc). }
    apply (Foc3 g (S m)); [| simpl; lia |].
    { intros l' _ Hl' Hc.
      exact (agree_outside_cell g h h2e h30 _ l Hg H3e Hl30 Hl3 l' Hl' Hc). }
    simpl. rewrite Hgl. apply fmap_Some. eexists. split; [|reflexivity].
    apply mapM_Some. apply Forall2_app; [|exact Hnews].
    eapply build_items_reify_agree; [exact Hbi | exact Hu3 | | lia].
    intros l' Hl0' [o Ho].
    assert (Hne : l' ≠ l) by (intros ->; congruence).
    pose proof (lookup_weaken _ _ _ _ Ho (transitivity Hsa (transitivity Hs3e H3e))) as Ho'.
    rewrite Ho, <- Ho'. apply Hg; eauto.
Qed.

Lemma field_build_inv j h0 v h (H : heap) key vx :
  build j h0 = (v, h) → unique_keys j = true → h ⊆ H →
  field H v key = Some vx →
  ∃ members x, j = JObj members ∧ dict_get key members = Some x.
Proof.
  intros Hb Hu Hsub Hf. pose proof (build_shape _ _ _ _ Hb) as Hshape.
  destruct j as [| | | | items | members];
    try (destruct (Hshape H key) as [Hn _]; congruence).
  - destruct Hshape as (l & vs & -> & Hl). unfold field in Hf.
    rewrite (lookup_weaken _ _ _ _ Hl Hsub) in Hf. discriminate.
  - destruct Hshape as (l & es & -> & Hl & Hkeys). unfold field in Hf.
    rewrite (lookup_weaken _ _ _ _ Hl Hsub) in Hf.
    simpl in Hu. apply andb_true_iff in Hu as [Hnd _].
    apply bool_decide_eq_true in Hnd.
    rewrite (dict_of_pairs_unique es) in Hf by (rewrite Hkeys; exact Hnd).
    destruct (dict_get_keys key es members Hkeys) as [x Hx]; eauto.
Qed.

Lemma as_list_build_inv j h0 v h (H : heap) p :
  build j h0 = (v, h) → h ⊆ H → as_list H v = Some p → ∃ items, j = JArr items.
Proof.
  intros Hb Hsub Ha. pose proof (build_shape _ _ _ _ Hb) as Hshape.
  destruct j as [| | | | items | members];
    try (destruct (Hshape H EmptyString) as [_ Hn]; congruence); eauto.
  destruct Hshape as (l & es & -> & Hl & _). unfold as_list in Ha.
  rewrite (lookup_weaken _ _ _ _ Hl Hsub) in Ha. discriminate.
Qed.

(** When the path resolves in the store of a built document, it resolves in
    the text. *)
Lemma path_resolves_in_tree j h0 job h infos :
  build j h0 = (job, h) → unique_keys j = true →
  is_Some (file_informations h job) →
  is_Some (append_file_infos infos j).
Proof.
  intros Hb Hu [p Hp]. unfold file_informations in Hp.
  destruct (field h job "setup") as [v1|] eqn:E1; [|discriminate].
  destruct (field h v1 "package") as [v2|] eqn:E2; [|discriminate].
  destruct (field h v2 "fileInformations") as [v3|] eqn:E3; [|discriminate].
  destruct (field_build_inv _ _ _ _ h _ _ Hb Hu (reflexivity h) E1)
    as (ms0 & x1 & -> & G1).
  destruct (build_obj_focus _ _ _ _ _ _ Hb Hu G1)
    as (v1' & h10 & h1e & Hf1 & Hb1 & _ & Hs1e & Hu1 & _).
  assert (v1' = v1) by congruence. subst v1'.
  destruct (field_build_inv _ _ _ _ h _ _ Hb1 Hu1 Hs1e E2) as (ms1 & x2 & -> & G2).
  destruct (build_obj_focus _ _ _ _ _ _ Hb1 Hu1 G2)
    as (v2' & h20 & h2e & Hf2 & Hb2 & _ & Hs2e & Hu2 & _).
  assert (v2' = v2) by (apply (field_mono _ _ _ _ _ Hs1e) in Hf2; congruence).
  subst v2'.
  assert (H2e : h2e ⊆ h) by (etrans; eauto).
  destruct (field_build_inv _ _ _ _ h _ _ Hb2 Hu2 H2e E3) as (ms2 & x3 & -> & G3).
  destruct (build_obj_focus _ _ _ _ _ _ Hb2 Hu2 G3)
    as (v3' & h30 & h3e & Hf3 & Hb3 & _ & Hs3e & _ & _).
  assert (v3' = v3) by (apply (field_mono _ _ _ _ _ H2e) in Hf3; congruence).
  subst v3'.
  destruct (as_list_build_inv _ _ _ _ h _ Hb3 (transitivity Hs3e H2e) Hp) as (xs & ->).
  unfold append_file_infos. simpl. rewrite G1. simpl. rewrite G2. simpl. rewrite G3.
  simpl. eauto.
Qed.

(** The merged text has the arrays and objects of the text and of the
    entries. *)
Lemma containers_append infos j j' :
  append_file_infos infos j = Some j' →
  containers j' = (containers j + fold_right (fun i n => (containers i + n)%nat) O infos)%nat.
Proof.
  unfold append_file_infos.
  destruct j as [| | | | |ms0]; try discriminate. simpl.
  destruct (dict_get "setup" ms0) as [x1|] eqn:G1; [|discriminate].
  destruct x1 as [| | | | |ms1]; try discriminate. simpl.
  destruct (dict_get "package" ms1) as [x2|] eqn:G2; [|discriminate].
  destruct x2 as [| | | | |ms2]; try discriminate. simpl.
  destruct (dict_get "fileInformations" ms2) as [x3|] eqn:G3; [|discriminate].
  destruct x3 as [| | | |xs|]; try discriminate. simpl.
  intros [= <-]. simpl.
  pose proof (containers_dict_set "setup" _
    (JObj (dict_set "package"
       (JObj (dict_set "fileInformations" (JArr (xs ++ infos)) ms2)) ms1)) _ G1) as D1.
  pose proof (containers_dict_set "package" _
    (JObj (dict_set "fileInformations" (JArr (xs ++ infos)) ms2)) _ G2) as D2.
  pose proof (containers_dict_set "fileInformations" _ (JArr (xs ++ infos)) _ G3) as D3.
  simpl in D1, D2, D3. rewrite fold_right_app in D3.
  assert (Hfold : ∀ (l : list json) (a : nat),
            fold_right (fun i n => (containers i + n)%nat) a l
            = (fold_right (fun i n => (containers i + n)%nat) O l + a)%nat).
  { induction l as [|y l IHl]; intros a; simpl; [reflexivity|]. rewrite IHl. lia. }
  rewrite (Hfold xs (fold_right (fun i n => (containers i + n)%nat) O infos)) in D3. lia.
Qed.

End TreeFacts.

Section RefinementFacts.

Variable w : world.
Variable client : Client.

Lemma upload_files_size paths acc st infos st' :
  upload_files w client paths acc st = (Ret infos, st') →
  size (st_heap st') = (size (st_heap st) + length paths)%nat.
Proof.
  revert acc st. induction paths as [|file rest IH]; intros acc st; simpl.
  - intros [= <- <-]. lia.
  - unfold bind. rewrite upload_info_run.
    destruct (files w file) as [f|]; [|discriminate].
    destruct (st_size f >? MAX_FILE_SIZE); [discriminate|].
    destruct (http_put w (upload_url w client) file) as [resp|]; [|discriminate].
    cbv zeta. intros Hrest. apply IH in Hrest. simpl in Hrest. rewrite Hrest.
    rewrite map_size_insert_None by (apply not_elem_of_dom, is_fresh). lia.
Qed.

(** The store after a returning run on a document whose path resolves. *)
Lemma add_file_info_ret_store job paths st job' st' l items :
  add_file_info_to_job w client job paths st = (Ret job', st') →
  paths ≠ [] →
  file_informations (st_heap st) job = Some (l, items) →
  ∃ news h1,
    job' = job
    ∧ st_heap st ⊆ h1
    ∧ h1 !! l = Some (OList items)
    ∧ st_heap st' = <[l := OList (items ++ news)]> h1
    ∧ Forall2 (info_for w client h1) paths news
    ∧ size h1 = (size (st_heap st) + length paths)%nat.
Proof.
  intros Hrun Hne Hfi.
  apply add_file_info_phases in Hrun
    as (r1 & st1 & ups & apps & Hup & _ & _ & _ & _ & Hg & Hcase).
  pose proof (upload_files_spec w client _ _ _ _ _ Hup) as (_ & _ & Hr1).
  destruct r1 as [infos|c|e]; try (destruct Hcase; discriminate).
  pose proof (upload_files_size _ _ _ _ _ Hup) as Hsize.
  destruct Hr1 as (news & Hnews & Hinfo & _). simpl in Hnews. subst news.
  destruct infos as [|x rest].
  { apply Forall2_nil_inv_r in Hinfo. contradiction. }
  pose proof (file_informations_mono _ _ _ _ (proj1 Hg) Hfi) as Hfi1.
  rewrite (update_wellformed _ _ _ _ _ Hfi1) in Hcase. injection Hcase as <- <-.
  exists (x :: rest), (st_heap st1). split_and!; auto.
  - apply Hg.
  - eapply file_informations_lookup, Hfi1.
Qed.

(** An entry of the store, as the encoder sees it. *)
Lemma info_for_reify (h g : heap) file v n :
  info_for w client h file v →
  (∀ l o, h !! l = Some o → (∃ es, o = ODict es) → g !! l = Some o) →
  reify (S n) g v = Some (entry_json w client file).
Proof.
  intros (l & f & r & -> & _ & Hput & Hl) Hg.
  unfold entry_json. rewrite Hput. simpl.
  rewrite (Hg _ _ Hl) by eauto. destruct n; reflexivity.
Qed.

Lemma containers_entries paths :
  fold_right (fun i n => (containers i + n)%nat) O (map (entry_json w client) paths)
  = length paths.
Proof. induction paths as [|p paths IH]; simpl; [reflexivity | rewrite IH; reflexivity]. Qed.

End RefinementFacts.

(** The assembly of a loaded document, on trees. *)
Lemma assembly_on_trees
    (w : world) (client : Client) (j : json) (h0 : heap) (job : value) (h : heap)
    (paths : list string) (t : list event) :
  build j h0 = (job, h) →
  unique_keys j = true →
  Forall (fun f => upload_ok w client f = true) paths →
  paths ≠ [] →
  ∃ st',
    match append_file_infos (map (entry_json w client) paths) j with
    | Some j' =>
        add_file_info_to_job w client job paths {| st_heap := h; st_trace := t |}
        = (Ret job, st')
        ∧ snapshot (st_heap st') job = Some j'
    | None =>
        add_file_info_to_job w client job paths {| st_heap := h; st_trace := t |}
        = (Exit 1, st')
        ∧ snapshot (st_heap st') job = Some j
    end.
Proof.
  intros Hb Hu Hall Hne.
  pose proof (build_spec _ _ _ _ Hb) as (_ & Hsz & _).
  destruct (append_file_infos (map (entry_json w client) paths) j) as [j'|] eqn:Happ.
  - destruct (append_refines _ _ _ _ _ _ Hb Hu Happ) as (l & items & Hfi & Href).
    destruct (add_file_info_returns w client job paths {| st_heap := h; st_trace := t |}
                l items Hall Hfi) as (st' & news0 & Hrun & _ & _).
    exists st'. split; [exact Hrun|].
    destruct (add_file_info_ret_store w client _ _ _ _ _ _ _ Hrun Hne Hfi)
      as (news & h1 & _ & Hsub & Hl1 & Hst' & Hinfo & Hsize).
    simpl in Hsub, Hsize.
    assert (Hreify : reify (S (S (S (S (S (containers j)))))) (st_heap st') job = Some j').
    { apply (Href (st_heap st') news (S (containers j))).
      - intros l' Hne' [o Ho]. rewrite Hst', lookup_insert_ne by congruence.
        rewrite Ho. eapply lookup_weaken; eauto.
      - rewrite Hst'. apply lookup_insert_eq.
      - lia.
      - apply Forall2_fmap_r, Forall2_flip.
        eapply Forall2_impl; [exact Hinfo|]. intros file v Hv.
        eapply info_for_reify; [exact Hv|].
        intros l' o Ho [es ->]. rewrite Hst', lookup_insert_ne; [exact Ho | congruence]. }
    apply reify_fuel_containers in Hreify.
    unfold snapshot. eapply reify_mono; [reflexivity | | exact Hreify].
    rewrite (containers_append _ _ _ Happ), containers_entries.
    rewrite Hst', map_size_insert_Some by eauto. lia.
  - assert (Hfi : file_informations h job = None).
    { destruct (file_informations h job) as [p|] eqn:Hfi; [|reflexivity].
      destruct (path_resolves_in_tree _ _ _ _ (map (entry_json w client) paths) Hb Hu)
        as [j' Hj']; [eauto | congruence]. }
    destruct (add_file_info_to_job w client job paths {| st_heap := h; st_trace := t |})
      as [r st'] eqn:Hrun.
    exists st'.
    apply add_file_info_phases in Hrun
      as (r1 & st1 & ups & apps & Hup & _ & _ & _ & _ & Hg & Hcase).
    destruct (upload_files_total w client paths [] {| st_heap := h; st_trace := t |} Hall)
      as (infos & st1' & Hup').
    rewrite Hup' in Hup. injection Hup as <- <-.
    pose proof (upload_files_spec w client _ _ _ _ _ Hup') as (_ & _ & Hr1).
    destruct Hr1 as (news & Hnews & Hinfo & _). simpl in Hnews. subst news.
    destruct infos as [|x rest].
    { apply Forall2_nil_inv_r in Hinfo. contradiction. }
    pose proof (file_informations_grown_none _ _ _ Hg Hfi) as Hfi1.
    rewrite (update_malformed _ _ _ _ Hfi1) in Hcase. injection Hcase as <- <-.
    split; [reflexivity|]. simpl.
    eapply snapshot_mono; [apply Hg|]. simpl.
    eapply build_snapshot; eauto.
Qed.

(** X15.  The assembly in the store implements the merge on trees.  For a
    document loaded from a text without a key twice, a non-empty file list
    and uploads that all go through: when appending the entries to
    [setup.package.fileInformations] of the text is possible,
    [add_file_info_to_job] returns and the encoder sees the document as that
    merged text (every other member, also a repeated or a nested one, as it
    was); when it is not possible, the run exits with status 1 and the
    document is still seen as the text. *)
Theorem assembly_implements_append_on_trees
    (w : world) (client : Client) (j : json) (h0 : heap) (job : value) (h : heap)
    (paths : list string) (t : list event) :
  build j h0 = (job, h) →
  unique_keys j = true →
  Forall (fun f => upload_ok w client f = true) paths →
  paths ≠ [] →
  ∃ st',
    match append_file_infos (map (entry_json w client) paths) j with
    | Some j' =>
        add_file_info_to_job w client job paths {| st_heap := h; st_trace := t |}
        = (Ret job, st')
        ∧ snapshot (st_heap st') job = Some j'
    | None =>
        add_file_info_to_job w client job paths {| st_heap := h; st_trace := t |}
        = (Exit 1, st')
        ∧ snapshot (st_heap st') job = Some j
    end.
Proof. apply assembly_on_trees. Qed.

(** X16.  [submit] end to end, on trees.  For a job file whose text has no
    key twice, a non-empty file list whose uploads all go through and no
    output path: when the entries can be appended to
    [setup.package.fileInformations] of the text and all numbers of the text
    are finite, the one request that follows the assembly posts the merged
    text, and the run returns when the service answers; when a number of the
    text is not finite, the files are uploaded and the call then raises
    [InvalidJSONError] with the job not posted; when the entries cannot be
    appended, the run exits with status 1 and the job is never posted. *)
Theorem submit_posts_the_merged_job
    (w : world) (client : Client) (job_path : string) (out : option string)
    (f : file_data) (j : json) (paths : list string) (st : state) :
  files w job_path = Some f →
  json_loads w (contents f) = Some j →
  unique_keys j = true →
  Forall (fun p => upload_ok w client p = true) paths →
  paths ≠ [] →
  truthy out = None →
  ∃ r st' pre,
    submit w client job_path out paths st = (r, st')
    ∧ Forall (fun e => is_post e = false ∧ is_write e = false) pre
    ∧ match append_file_infos (map (entry_json w client) paths) j with
      | Some j' =>
          if finite_json j' then
            ∃ tail,
              st_trace st' = st_trace st ++ pre
                               ++ EvPost (_url w client "api/accounts/" "/jobs") (Some j')
                                    :: tail
              ∧ match http_post w (_url w client "api/accounts/" "/jobs") (Some j') with
                | Some resp =>
                    r = Ret tt
                    ∧ tail = [EvPrint (hook_line resp); EvPrint (response_body w resp)]
                | None => r = Raise ConnectionError ∧ tail = []
                end
          else r = Raise InvalidJSONError ∧ st_trace st' = st_trace st ++ pre
      | None => r = Exit 1 ∧ st_trace st' = st_trace st ++ pre
      end.
Proof.
  intros Hf Hj Hu Hall Hne Hout.
  rewrite (submit_run w client _ _ _ _ _ _ Hf Hj).
  destruct (build j (st_heap st)) as [job h] eqn:Hb.
  destruct (assembly_on_trees w client j _ job h paths (st_trace st) Hb Hu Hall Hne)
    as (st2 & Hcase).
  destruct (append_file_infos (map (entry_json w client) paths) j) as [j'|] eqn:Happ.
  - destruct Hcase as (Hrun & Hsnap).
    destruct (add_file_info_quiet w client _ _ _ _ _ Hrun) as (evs & Ht & Hq).
    simpl in Ht. rewrite Hrun, Hout, submit_job_run, (post_body_snapshot _ _ _ Hsnap).
    assert (Hobj : json_post_body j' = if finite_json j' then Some (Some j') else None).
    { unfold append_file_infos, json_field_update in Happ.
      destruct j; try discriminate.
      destruct (dict_get "setup" members); [|discriminate].
      destruct (match j with JObj _ => _ | _ => None end); [|discriminate].
      injection Happ as <-. reflexivity. }
    rewrite Hobj. destruct (finite_json j').
    + destruct (http_post w (_url w client "api/accounts/" "/jobs") (Some j')) as [resp|];
        eexists _, _, evs; (split; [reflexivity|]); (split; [exact Hq|]);
        eexists; simpl; rewrite Ht, <- app_assoc;
        split; [reflexivity | auto | reflexivity | auto].
    + eexists _, _, evs. split; [reflexivity|]. split; [exact Hq|]. auto.
  - destruct Hcase as (Hrun & _).
    destruct (add_file_info_quiet w client _ _ _ _ _ Hrun) as (evs & Ht & Hq).
    simpl in Ht. rewrite Hrun.
    eexists _, _, evs. split; [reflexivity|]. split; [exact Hq|]. auto.
Qed.

(** ** The further properties at concrete inputs *)

Lemma assembly_exit_is_status_one_with_message_witness :
  let job := fst (Scenario.loaded Scenario.template) in
  let st := snd (Scenario.loaded Scenario.template) in
  let run := add_file_info_to_job Fixtures.demo Fixtures.client job
               ["report.txt"; "big.bin"] st in
  run = (Exit 1, snd run)
  ∧ ∃ evs line,
      st_trace (snd run) = st_trace st ++ evs ++ [EvPrint line]
      ∧ ((line = missing_structure_message
          ∧ file_informations (st_heap st) job = None
          ∧ Forall (fun f => upload_ok Fixtures.demo Fixtures.client f = true)
              ["report.txt"; "big.bin"])
         ∨ ∃ file f, In file ["report.txt"; "big.bin"]
                     ∧ files Fixtures.demo file = Some f
                     ∧ st_size f > MAX_FILE_SIZE
                     ∧ line = size_error_message file (st_size f)).
Proof.
  cbv zeta.
  assert (H : add_file_info_to_job Fixtures.demo Fixtures.client
                (fst (Scenario.loaded Scenario.template)) ["report.txt"; "big.bin"]
                (snd (Scenario.loaded Scenario.template))
              = (Exit 1,
                 snd (add_file_info_to_job Fixtures.demo Fixtures.client
                        (fst (Scenario.loaded Scenario.template))
                        ["report.txt"; "big.bin"]
                        (snd (Scenario.loaded Scenario.template)))))
    by (vm_compute; reflexivity).
  split; [exact H|].
  exact (proj2 (assembly_exit_is_status_one_with_message Fixtures.demo Fixtures.client
                  _ _ _ _ _ H)).
Defined.

Lemma uploads_are_a_prefix_of_the_file_list_witness :
  let job := fst (Scenario.loaded Scenario.template) in
  let st := snd (Scenario.loaded Scenario.template) in
  let paths := ["report.txt"; "big.bin"; "limit.bin"] in
  let run := add_file_info_to_job Fixtures.demo Fixtures.client job paths st in
  uploads (snd run) = ["report.txt"]
  ∧ ∃ k evs,
      uploads (snd run) = uploads st ++ take k paths
      ∧ (∀ v, fst run = Ret v → k = length paths)
      ∧ st_trace (snd run) = st_trace st ++ evs
      ∧ ∀ u p, In (EvPut u p) evs → u = upload_url Fixtures.demo Fixtures.client.
Proof.
  cbv zeta. split; [vm_compute; reflexivity|].
  exact (uploads_are_a_prefix_of_the_file_list Fixtures.demo Fixtures.client
           _ _ _ _ _ (surjective_pairing _)).
Defined.

Lemma entries_are_new_objects_one_per_file_witness :
  let job := fst (Scenario.loaded Scenario.template) in
  let st := snd (Scenario.loaded Scenario.template) in
  let paths := ["report.txt"; "limit.bin"] in
  let st' := snd (add_file_info_to_job Fixtures.demo Fixtures.client job paths st) in
  add_file_info_to_job Fixtures.demo Fixtures.client job paths st = (Ret job, st')
  ∧ ∃ ls,
      length ls = length paths
      ∧ NoDup ls
      ∧ Forall (fun l => st_heap st !! l = None) ls
      ∧ dom (st_heap st') = dom (st_heap st) ∪ list_to_set ls
      ∧ size (st_heap st') = (size (st_heap st) + length paths)%nat
      ∧ ∀ l items, file_informations (st_heap st) job = Some (l, items) →
                   file_informations (st_heap st') job
                   = Some (l, items ++ (VRef <$> ls)).
Proof.
  cbv zeta.
  assert (H : add_file_info_to_job Fixtures.demo Fixtures.client
                (fst (Scenario.loaded Scenario.template)) ["report.txt"; "limit.bin"]
                (snd (Scenario.loaded Scenario.template))
              = (Ret (fst (Scenario.loaded Scenario.template)),
                 snd (add_file_info_to_job Fixtures.demo Fixtures.client
                        (fst (Scenario.loaded Scenario.template))
                        ["report.txt"; "limit.bin"]
                        (snd (Scenario.loaded Scenario.template)))))
    by (vm_compute; reflexivity).
  split; [exact H|].
  exact (entries_are_new_objects_one_per_file Fixtures.demo Fixtures.client
           _ _ _ _ _ H).
Defined.

Lemma second_run_appends_again_witness :
  let job := fst (Scenario.loaded Scenario.template) in
  let st := snd (Scenario.loaded Scenario.template) in
  let paths := ["report.txt"; "limit.bin"] in
  let st1 := snd (add_file_info_to_job Fixtures.demo Fixtures.client job paths st) in
  file_informations (st_heap st) job = Some (1%positive, [])
  ∧ add_file_info_to_job Fixtures.demo Fixtures.client job paths st = (Ret job, st1)
  ∧ ∃ st2 news1 news2,
      add_file_info_to_job Fixtures.demo Fixtures.client job paths st1 = (Ret job, st2)
      ∧ file_informations (st_heap st1) job = Some (1%positive, [] ++ news1)
      ∧ file_informations (st_heap st2) job = Some (1%positive, [] ++ news1 ++ news2)
      ∧ length news1 = length paths
      ∧ length news2 = length paths.
Proof.
  cbv zeta.
  assert (H1 : file_informations (st_heap (snd (Scenario.loaded Scenario.template)))
                 (fst (Scenario.loaded Scenario.template)) = Some (1%positive, []))
    by (vm_compute; reflexivity).
  assert (H2 : add_file_info_to_job Fixtures.demo Fixtures.client
                 (fst (Scenario.loaded Scenario.template)) ["report.txt"; "limit.bin"]
                 (snd (Scenario.loaded Scenario.template))
               = (Ret (fst (Scenario.loaded Scenario.template)),
                  snd (add_file_info_to_job Fixtures.demo Fixtures.client
                         (fst (Scenario.loaded Scenario.template))
                         ["report.txt"; "limit.bin"]
                         (snd (Scenario.loaded Scenario.template)))))
    by (vm_compute; reflexivity).
  split; [exact H1|]. split; [exact H2|].
  exact (second_run_appends_again Fixtures.demo Fixtures.client _ _ _ _ _ _ _ H1 H2).
Defined.

Lemma upload_command_has_no_size_limit_witness :
  files Fixtures.demo "big.bin" = Some {| st_size := 4194305; contents := "(4 MiB + 1)" |}
  ∧ 4194305 > MAX_FILE_SIZE
  ∧ uploads (snd (Cli.upload_file Fixtures.demo Fixtures.client "big.bin"
                    Scenario.empty_state))
    = uploads Scenario.empty_state ++ ["big.bin"]
  ∧ uploads (snd (upload_file_and_generate_file_info Fixtures.demo Fixtures.client
                    "big.bin" Scenario.empty_state))
    = uploads Scenario.empty_state.
Proof.
  assert (H : 4194305 > MAX_FILE_SIZE) by (unfold MAX_FILE_SIZE; lia).
  split; [reflexivity|]. split; [exact H|].
  exact (proj2 (upload_command_has_no_size_limit Fixtures.demo Fixtures.client
                  "big.bin" Scenario.empty_state) _ eq_refl H).
Defined.

Lemma submit_reads_the_job_file_first_witness :
  (files Fixtures.demo "missing.json" = None
   ∧ submit Fixtures.demo Fixtures.client "missing.json" None ["report.txt"]
       Scenario.empty_state = (Raise FileNotFoundError, Scenario.empty_state))
  ∧ (files Fixtures.demo "report.txt" = Some {| st_size := 10; contents := "0123456789" |}
     ∧ json_loads Fixtures.demo "0123456789" = None
     ∧ submit Fixtures.demo Fixtures.client "report.txt" None ["report.txt"]
         Scenario.empty_state = (Raise JSONDecodeError, Scenario.empty_state)).
Proof.
  split.
  - split; [reflexivity|].
    exact (proj1 (submit_reads_the_job_file_first Fixtures.demo Fixtures.client
                    "missing.json" None ["report.txt"] Scenario.empty_state) eq_refl).
  - split; [reflexivity|]. split; [reflexivity|].
    exact (proj2 (submit_reads_the_job_file_first Fixtures.demo Fixtures.client
                    "report.txt" None ["report.txt"] Scenario.empty_state)
             _ eq_refl eq_refl).
Defined.

Lemma submit_posts_once_after_assembly_witness :
  let run := submit Fixtures.demo Fixtures.client "job.json" None ["report.txt"]
               Scenario.empty_state in
  fst run = Ret tt
  ∧ ∃ pre tail,
      st_trace (snd run) = st_trace Scenario.empty_state ++ pre ++ tail
      ∧ Forall (fun e => is_post e = false ∧ is_write e = false) pre
      ∧ ((tail = [] ∧ fst run ≠ Ret tt)
         ∨ (∃ body,
              tail = [EvPost (_url Fixtures.demo Fixtures.client "api/accounts/" "/jobs")
                        body]
              ∧ fst run = Raise ConnectionError ∧ truthy None = None)
         ∨ (∃ body resp,
              tail = [EvPost (_url Fixtures.demo Fixtures.client "api/accounts/" "/jobs")
                        body;
                      EvPrint (hook_line resp);
                      EvPrint (response_body Fixtures.demo resp)]
              ∧ fst run = Ret tt
              ∧ http_post Fixtures.demo
                  (_url Fixtures.demo Fixtures.client "api/accounts/" "/jobs") body
                = Some resp
              ∧ truthy None = None)).
Proof.
  cbv zeta. split; [vm_compute; reflexivity|].
  exact (submit_posts_once_after_assembly Fixtures.demo Fixtures.client
           _ _ _ _ _ _ (surjective_pairing _)).
Defined.

Lemma load_then_dump_round_trip_witness :
  files Fixtures.demo "job.json" = Some {| st_size := 48; contents := "TEMPLATE" |}
  ∧ json_loads Fixtures.demo "TEMPLATE" = Some Scenario.template
  ∧ unique_keys Scenario.template = true
  ∧ ∃ v st',
      json_load Fixtures.demo {| h_path := "job.json"; h_mode := ModeR |}
        Scenario.empty_state = (Ret v, st')
      ∧ snapshot (st_heap st') v = Some Scenario.template
      ∧ json_dump Fixtures.demo v {| h_path := "copy.json"; h_mode := ModeW |} st'
        = (Ret tt, log st' [EvWrite "copy.json"
                              (json_dumps Fixtures.demo Scenario.template)]).
Proof.
  split; [reflexivity|]. split; [reflexivity|]. split; [reflexivity|].
  destruct (load_then_dump_round_trip Fixtures.demo "job.json" _ _ Scenario.empty_state
              eq_refl eq_refl) as (v & st' & Hload & _ & _ & _ & Hround).
  destruct (Hround eq_refl) as [Hsnap Hdump].
  exists v, st'. split; [exact Hload|]. split; [exact Hsnap | apply Hdump].
Defined.

Lemma submit_without_files_posts_the_parsed_job_witness :
  files Fixtures.demo "empty.json" = Some {| st_size := 2; contents := "{}" |}
  ∧ json_loads Fixtures.demo "{}" = Some (JObj [])
  ∧ unique_keys (JObj []) = true
  ∧ truthy None = None
  ∧ ∃ st',
      submit Fixtures.demo Fixtures.client "empty.json" None [] Scenario.empty_state
      = (Ret tt, st')
      ∧ st_trace st'
        = [EvPost (_url Fixtures.demo Fixtures.client "api/accounts/" "/jobs")
             (Some (JObj []));
           EvPrint "200 OK https://msrd.example/api/accounts/acct/jobs";
           EvPrint "accepted"].
Proof.
  split; [reflexivity|]. split; [reflexivity|]. split; [reflexivity|].
  split; [reflexivity|].
  destruct (submit_without_files_posts_the_parsed_job Fixtures.demo Fixtures.client
              "empty.json" None _ _ Scenario.empty_state eq_refl eq_refl eq_refl eq_refl)
    as (r & st' & tail & Hrun & Hcase & _).
  simpl in Hcase. destruct Hcase as (Ht & -> & ->).
  exists st'. split; [exact Hrun | exact Ht].
Defined.

Lemma assembly_implements_append_on_trees_witness :
  let job := fst (build Scenario.template ∅) in
  let h := snd (build Scenario.template ∅) in
  build Scenario.template ∅ = (job, h)
  ∧ unique_keys Scenario.template = true
  ∧ Forall (fun f => upload_ok Fixtures.demo Fixtures.client f = true) ["report.txt"]
  ∧ append_file_infos (map (entry_json Fixtures.demo Fixtures.client) ["report.txt"])
      Scenario.template = Some Scenario.expected
  ∧ ∃ st',
      add_file_info_to_job Fixtures.demo Fixtures.client job ["report.txt"]
        {| st_heap := h; st_trace := [] |} = (Ret job, st')
      ∧ snapshot (st_heap st') job = Some Scenario.expected.
Proof.
  cbv zeta.
  assert (H1 : build Scenario.template ∅
               = (fst (build Scenario.template ∅), snd (build Scenario.template ∅)))
    by apply surjective_pairing.
  assert (H3 : Forall (fun f => upload_ok Fixtures.demo Fixtures.client f = true)
                 ["report.txt"]) by (repeat constructor).
  assert (H4 : ["report.txt"] ≠ []) by discriminate.
  split; [exact H1|]. split; [reflexivity|]. split; [exact H3|].
  split; [reflexivity|].
  exact (assembly_implements_append_on_trees Fixtures.demo Fixtures.client
           Scenario.template ∅ _ _ ["report.txt"] [] H1 eq_refl H3 H4).
Defined.

Lemma submit_posts_the_merged_job_witness :
  files Fixtures.demo "job.json" = Some {| st_size := 48; contents := "TEMPLATE" |}
  ∧ json_loads Fixtures.demo "TEMPLATE" = Some Scenario.template
  ∧ unique_keys Scenario.template = true
  ∧ Forall (fun p => upload_ok Fixtures.demo Fixtures.client p = true) ["report.txt"]
  ∧ ["report.txt"] ≠ []
  ∧ truthy None = None
  ∧ ∃ st' pre,
      submit Fixtures.demo Fixtures.client "job.json" None ["report.txt"]
        Scenario.empty_state = (Ret tt, st')
      ∧ st_trace st'
        = pre ++ [EvPost (_url Fixtures.demo Fixtures.client "api/accounts/" "/jobs")
                    (Some Scenario.expected);
                  EvPrint "200 OK https://msrd.example/api/accounts/acct/jobs";
                  EvPrint "accepted"].
Proof.
  assert (H3 : Forall (fun p => upload_ok Fixtures.demo Fixtures.client p = true)
                 ["report.txt"]) by (repeat constructor).
  assert (H4 : ["report.txt"] ≠ []) by discriminate.
  split; [reflexivity|]. split; [reflexivity|]. split; [reflexivity|].
  split; [exact H3|]. split; [exact H4|]. split; [reflexivity|].
  destruct (submit_posts_the_merged_job Fixtures.demo Fixtures.client "job.json" None
              _ _ ["report.txt"] Scenario.empty_state eq_refl eq_refl eq_refl H3 H4 eq_refl)
    as (r & st' & pre & Hrun & _ & Hcase).
  simpl in Hcase. destruct Hcase as (tail & Ht & -> & ->).
  exists st', pre. split; [exact Hrun | exact Ht].
Defined.
